(** * Predictive pod autoscaling utilities

    A shallow embedding of
    [pkg/controller/podautoscaler/predictive_utils.go]: the observation
    window ([updateUtilizationObservations], [removeOldUtils]), the pod
    initialisation time ([initTimeForPod], [initTimeForPods]), the line of
    best fit ([lineOfBestFit]) and the prediction
    ([predictFutureCPUFromBestFit]).

    Conventions.
    - [float64] is the kernel's binary64 type, so every arithmetic step
      rounds as the Go program does.
    - [int] and [int64] are [Z]; the only integer arithmetic of the file is
      a loop index and a counter, both bounded by the length of a slice.
    - A Go [(value, error)] result is a pair whose second component is
      [option error]; [None] is [nil].
    - The wall clock is an oracle [clock : nat -> Time]: the [n]-th call of
      [time.Now()] reads [clock n].
    - [map[string]string] annotations are reference values: a pod holds
      [nil] or the address of a map in a store, and copying the pod copies
      the address.
    - An observation ([map[string]int]) is the list of its entries in the
      order the [range] loop visits them; statements quantify over every
      such order. *)

From Stdlib Require Import ZArith Bool List String Ascii Lia Floats Uint63 Sorted.
From Stdlib Require Import Reals Lra.
From stdpp Require Import gmap strings.
Import ListNotations.

Local Open Scope Z_scope.

(* Decimal constants such as 3.7 denote the nearest binary64 value, as in Go. *)
#[local] Set Warnings "-inexact-float".

(** ** Go values *)

Abbreviation float64 := PrimFloat.float.

(** The errors the package returns or passes on. *)
Inductive error : Type :=
| Errorf (msg : string)            (* fmt.Errorf(msg) *)
| DurationParseError (s : string)  (* the error of time.ParseDuration(s) *)
| MarshalTimeError                 (* Time.MarshalJSON: year outside [0,9999] *)
| EmptyInput                       (* stats.EmptyInput *)
| SizeErr.                         (* stats.SizeErr *)

(** The spec's names for the two errors the package itself creates. *)
Definition NotReadyError : error := Errorf "Pod is not ready.".
Definition DegenerateInputError : error :=
  Errorf "Can't divide by variance if it is 0.".

(** [float64(z)] for a 64-bit integer [z]. *)
Definition float64_of_int (z : Z) : float64 :=
  if Z.abs z <? 2 ^ 63 then
    if z <? 0 then PrimFloat.opp (PrimFloat.of_uint63 (Uint63.of_Z (- z)))
    else PrimFloat.of_uint63 (Uint63.of_Z z)
  else (- 0x1p63)%float.

(** [math.Min], with its special cases for infinities, NaN and signed
    zeros. *)
Definition math_Min (x y : float64) : float64 :=
  if PrimFloat.eqb x neg_infinity || PrimFloat.eqb y neg_infinity
  then neg_infinity
  else if PrimFloat.is_nan x || PrimFloat.is_nan y then nan
  else if PrimFloat.eqb x 0 && PrimFloat.eqb x y
  then (if PrimFloat.get_sign x then x else y)
  else if PrimFloat.ltb x y then x else y.

(** ** Package time: instants and durations *)

(** An instant is its number of nanoseconds since the Unix epoch (the
    process runs in UTC), a duration a number of nanoseconds in the range of
    [int64]. *)
Abbreviation Time := Z.
Abbreviation Duration := Z.

Definition Second : Duration := 1000000000.
Definition minDuration : Duration := - 2 ^ 63.
Definition maxDuration : Duration := 2 ^ 63 - 1.

(** The zero [Time] ([var t time.Time]) is January 1, year 1, 00:00 UTC. *)
Definition zeroTime : Time := -62135596800 * Second.

(** [t.Sub(u)]: the difference, saturated to the range of [Duration]. *)
Definition Sub (t u : Time) : Duration :=
  Z.max minDuration (Z.min maxDuration (t - u)).

(** [d.Seconds()]: whole seconds plus the fraction, each converted to
    [float64]. *)
Definition Seconds (d : Duration) : float64 :=
  (float64_of_int (Z.quot d Second) + float64_of_int (Z.rem d Second) / 1e9)%float.

(** [t.Unix()]: whole seconds since the epoch. *)
Definition Unix (t : Time) : Z := t / Second.

(** The string conversions of package time. They belong to Go's standard
    library, not to the repository, and the development depends on nothing
    but their signatures:
    - [MarshalJSON t] is [t.MarshalJSON()], [None] when it returns an error;
    - [UnmarshalJSON t data] is [t.UnmarshalJSON(data)] for a variable
      currently holding [t]: the new content of the variable, and whether the
      call succeeded;
    - [DurationString d] is [d.String()];
    - [ParseDuration s] is [time.ParseDuration(s)], [None] when it returns an
      error. *)
Class TimePkg : Type := {
  MarshalJSON : Time -> option string;
  UnmarshalJSON : Time -> string -> Time * bool;
  DurationString : Duration -> string;
  ParseDuration : string -> option Duration
}.

(** The three functions of [github.com/montanaflynn/stats] the package
    calls, likewise by signature only. *)
Class StatsPkg : Type := {
  CovariancePopulation : list float64 -> list float64 -> float64 * option error;
  PopulationVariance : list float64 -> float64 * option error;
  Mean : list float64 -> float64 * option error
}.

(** ** Package api: pods *)

(** The address of a [map[string]string] in the store. *)
Abbreviation loc := positive.
Abbreviation annotationMap := (gmap string string).
Abbreviation store := (gmap loc (gmap string string)).

Definition PodConditionType : Type := string.
Definition PodReady : PodConditionType := "Ready".

Record PodCondition : Type := {
  CondType : PodConditionType;        (* Type *)
  LastTransitionTime : Time
}.

Record PodStatus : Type := { Conditions : list PodCondition }.

Record ObjectMeta : Type := {
  Annotations : option loc;           (* nil, or a map *)
  CreationTimestamp : Time
}.

Record Pod : Type := { Meta : ObjectMeta; Status : PodStatus }.

(** The content of an annotation field: a nil map reads as an empty one. *)
Definition annotationsOf (h : store) (a : option loc) : annotationMap :=
  match a with
  | None => ∅
  | Some l => default ∅ (h !! l)
  end.

(** [pod.Annotations[key]], with its [found] flag as the option. *)
Definition getAnnotation (h : store) (pod : Pod) (key : string) : option string :=
  annotationsOf h (Annotations (Meta pod)) !! key.

Definition setAnnotations (pod : Pod) (a : option loc) : Pod :=
  {| Meta := {| Annotations := a;
                CreationTimestamp := CreationTimestamp (Meta pod) |};
     Status := Status pod |}.

(** ** Package podautoscaler *)

Definition PitAnnotationName : string := "InitializationTime".
Definition PredictiveAutoscalingAnnotationName : string := "predictive".
Definition PreviousCPUAnnotationName : string := "previousCPUUtilizations".

(** [writeToPodAnnotations(pod *api.Pod, key, value)]: the pod variable the
    pointer designates is passed in and handed back, next to the store. A
    nil map is replaced by a freshly made one in that variable. *)
Definition writeToPodAnnotations (pod : Pod) (key value : string) (h : store)
  : Pod * store :=
  let '(pod, h) :=
    match Annotations (Meta pod) with
    | None =>
        let l := fresh (dom h) in
        (setAnnotations pod (Some l), <[l := ∅]> h)
    | Some _ => (pod, h)
    end in
  match Annotations (Meta pod) with
  | Some l => (pod, <[l := <[key := value]> (default ∅ (h !! l))]> h)
  | None => (pod, h)
  end.

(** [extensions.HorizontalPodAutoscaler], of which the package reads and
    writes the annotations only. *)
Record HorizontalPodAutoscaler : Type := { HPAMeta : ObjectMeta }.

(** [hpa.Annotations[key]], with its [found] flag as the option. *)
Definition getHPAAnnotation (h : store) (hpa : HorizontalPodAutoscaler)
    (key : string) : option string :=
  annotationsOf h (Annotations (HPAMeta hpa)) !! key.

(** [isPredictive(hpa)]. *)
Definition isPredictive (h : store) (hpa : HorizontalPodAutoscaler) : bool :=
  match getHPAAnnotation h hpa PredictiveAutoscalingAnnotationName with
  | Some predAnn => String.eqb predAnn "true"
  | None => false
  end.

(** [writeToHPAAnnotations(hpa, key, value)]: the autoscaler the pointer
    designates is passed in and handed back, next to the store. *)
Definition writeToHPAAnnotations (hpa : HorizontalPodAutoscaler)
    (key value : string) (h : store) : HorizontalPodAutoscaler * store :=
  let '(hpa, h) :=
    match Annotations (HPAMeta hpa) with
    | None =>
        let l := fresh (dom h) in
        ({| HPAMeta := {| Annotations := Some l;
                          CreationTimestamp := CreationTimestamp (HPAMeta hpa) |} |},
         <[l := ∅]> h)
    | Some _ => (hpa, h)
    end in
  match Annotations (HPAMeta hpa) with
  | Some l => (hpa, <[l := <[key := value]> (default ∅ (h !! l))]> h)
  | None => (hpa, h)
  end.

(** An observation, [map[string]int], and the window [[]map[string]int]. *)
Abbreviation observation := (list (string * Z)).
Abbreviation observations := (list (list (string * Z))).

(** The variables of [removeOldUtils] that its loops update, and the number
    of clock readings made so far. *)
Record scan : Type := {
  firstToKeep : Z;
  stop : bool;
  t : Time;
  reads : nat
}.

Section Podautoscaler.
Context `{TP : TimePkg} `{SP : StatsPkg}.
Variable clock : nat -> Time.

(** [time.Since(t)] at the [n]-th reading of the clock. *)
Definition Since (n : nat) (u : Time) : Duration := Sub (clock n) u.

(** The body of the inner loop of [removeOldUtils], for the entry [entry] of
    the observation at index [i]. The error of [UnmarshalJSON] is dropped, as
    in the source. *)
Definition scanKey (maxDistance : float64) (i : Z) (s : scan)
    (entry : string * Z) : scan :=
  let t' := fst (UnmarshalJSON (t s) (fst entry)) in
  if PrimFloat.ltb (Seconds (Since (reads s) t')) maxDistance
  then {| firstToKeep := i; stop := true; t := t'; reads := S (reads s) |}
  else {| firstToKeep := firstToKeep s; stop := stop s; t := t';
          reads := S (reads s) |}.

(** The outer loop: [for i, timeMap := range previousObservations]. *)
Fixpoint scanObservations (maxDistance : float64) (i : Z)
    (previousObservations : observations) (s : scan) : scan :=
  match previousObservations with
  | [] => s
  | timeMap :: rest =>
      if stop s then s
      else scanObservations maxDistance (i + 1) rest
             (fold_left (scanKey maxDistance i) timeMap s)
  end.

(** [removeOldUtils]; [n] is the number of clock readings made before the
    call. *)
Definition removeOldUtils (n : nat) (previousObservations : observations)
    (podInitTime : float64) : observations :=
  let k := 20%float in
  let maxDistance := math_Min (podInitTime * k)%float (60 * 10)%float in
  let s := scanObservations maxDistance 0 previousObservations
             {| firstToKeep := -1; stop := false; t := zeroTime; reads := n |} in
  if firstToKeep s =? -1 then []
  else drop (Z.to_nat (firstToKeep s)) previousObservations.

(** [updateUtilizationObservations]; a nil slice is the empty list. *)
Definition updateUtilizationObservations (n : nat) (cpuCurrentUtilization : Z)
    (previousObservations : observations) (podInitTime : float64)
  : observations * option error :=
  match MarshalJSON (clock n) with
  | None => ([], Some MarshalTimeError)
  | Some jsonTime =>
      let observation := [(jsonTime, cpuCurrentUtilization)] in
      let previousObservations :=
        removeOldUtils (S n) previousObservations podInitTime in
      (previousObservations ++ [observation], None)
  end.

(** The loop of [initTimeForPod] over [pod.Status.Conditions]. [pod] is the
    function's own copy of its argument: what [writeToPodAnnotations] stores
    in it is lost at the return, what it stores in the map is not. *)
Fixpoint initTimeForPodConds (conds : list PodCondition) (pod : Pod)
    (h : store) : (float64 * option error) * store :=
  match conds with
  | [] => ((0%float, Some (Errorf "Pod is not ready.")), h)
  | cond :: rest =>
      if String.eqb (CondType cond) PodReady then
        let '(initTime, h) :=
          match getAnnotation h pod PitAnnotationName with
          | Some initTime => (initTime, h)
          | None =>
              let initTime :=
                DurationString
                  (Sub (LastTransitionTime cond) (CreationTimestamp (Meta pod))) in
              (initTime, snd (writeToPodAnnotations pod PitAnnotationName initTime h))
          end in
        match ParseDuration initTime with
        | None => ((0%float, Some (DurationParseError initTime)), h)
        | Some initDuration => ((Seconds initDuration, None), h)
        end
      else initTimeForPodConds rest pod h
  end.

Definition initTimeForPod (pod : Pod) (h : store)
  : (float64 * option error) * store :=
  initTimeForPodConds (Conditions (Status pod)) pod h.

(** The loop of [initTimeForPods], from the accumulators
    [totalInitializationTime] and [readyPods]. *)
Fixpoint initTimeForPodsFrom (pods : list Pod)
    (totalInitializationTime : float64) (readyPods : Z) (h : store)
  : (float64 * option error) * store :=
  match pods with
  | [] =>
      if readyPods =? 0 then ((0%float, None), h)
      else ((totalInitializationTime / float64_of_int readyPods)%float, None, h)
  | pod :: rest =>
      match initTimeForPod pod h with
      | ((_, Some err), h) => ((0%float, Some err), h)
      | ((pit, None), h) =>
          initTimeForPodsFrom rest (totalInitializationTime + pit)%float
            (readyPods + 1) h
      end
  end.

Definition initTimeForPods (pods : list Pod) (h : store)
  : (float64 * option error) * store :=
  initTimeForPodsFrom pods 0%float 0 h.

(** The body of the loops of [getSecondsAndCPULists] for one observation;
    [t] is declared afresh for every entry. *)
Definition appendEntry (acc : list float64 * list float64)
    (entry : string * Z) : list float64 * list float64 :=
  let t := fst (UnmarshalJSON zeroTime (fst entry)) in
  (fst acc ++ [float64_of_int (Unix t)], snd acc ++ [float64_of_int (snd entry)]).

Definition getSecondsAndCPULists (previousUtils : observations)
  : list float64 * list float64 :=
  fold_left (fun acc obs => fold_left appendEntry obs acc) previousUtils ([], []).

(** [lineOfBestFit]: the two pointers ([None] is nil) and the error. *)
Definition lineOfBestFit (allSeconds allCPUUtilizations : list float64)
  : option float64 * option float64 * option error :=
  match CovariancePopulation allSeconds allCPUUtilizations with
  | (_, Some err) => (None, None, Some err)
  | (covariance, None) =>
  match PopulationVariance allSeconds with
  | (_, Some err) => (None, None, Some err)
  | (secondsVariance, None) =>
  if PrimFloat.eqb secondsVariance 0
  then (None, None, Some (Errorf "Can't divide by variance if it is 0."))
  else
  match Mean allSeconds with
  | (_, Some err) => (None, None, Some err)
  | (meanSeconds, None) =>
  match Mean allCPUUtilizations with
  | (_, Some err) => (None, None, Some err)
  | (meanCPUUtilization, None) =>
      let slope := (covariance / secondsVariance)%float in
      let yIntercept := (meanCPUUtilization - slope * meanSeconds)%float in
      (Some yIntercept, Some slope, None)
  end end end end.

End Podautoscaler.

Definition predictFutureCPUFromBestFit (pit currentTime yIntercept slope : float64)
  : float64 :=
  let futurePredictionTime := (currentTime + pit)%float in
  let predictedCPUUtilization := (yIntercept + slope * futurePredictionTime)%float in
  predictedCPUUtilization.

(** ** A reference implementation of the imported packages

    Used to run the functions on concrete inputs; the general theorems hold
    for every implementation of [TimePkg] and [StatsPkg]. Neither package is
    part of the repository's sources: package time follows the Go standard
    library ([Duration.String], [ParseDuration], and RFC 3339 timestamps in
    UTC), package stats the textbook formulas. *)
Module GoStd.

Definition digitChar (d : Z) : ascii := ascii_of_nat (48 + Z.to_nat d).

Definition isDigit (c : ascii) : bool :=
  (48 <=? nat_of_ascii c)%nat && (nat_of_ascii c <=? 57)%nat.

Definition digitVal (c : ascii) : Z := Z.of_nat (nat_of_ascii c) - 48.

(** ** [Duration.String] *)

(** [fmtInt]: the decimal digits of [v] before [tail]. *)
Fixpoint fmtIntFuel (fuel : nat) (v : Z) (tail : string) : string :=
  match fuel with
  | O => tail
  | S fuel =>
      let tail := String (digitChar (v mod 10)) tail in
      if v / 10 =? 0 then tail else fmtIntFuel fuel (v / 10) tail
  end.

Definition fmtInt (v : Z) (tail : string) : string := fmtIntFuel 20 v tail.

(** [fmtFrac]: the fraction [v / 10^prec] before [tail], without trailing
    zeros, and [v / 10^prec]. *)
Fixpoint fmtFrac (prec : nat) (v : Z) (print : bool) (tail : string)
  : string * Z :=
  match prec with
  | O => (if print then String "." tail else tail, v)
  | S prec =>
      let digit := v mod 10 in
      let print := print || negb (digit =? 0) in
      fmtFrac prec (v / 10) print
        (if print then String (digitChar digit) tail else tail)
  end.

(** The two bytes of the micro sign in UTF-8. *)
Definition micro : string :=
  String (ascii_of_nat 194) (String (ascii_of_nat 181) EmptyString).

Definition DurationString (d : Duration) : string :=
  let u := Z.abs d in
  if u =? 0 then "0s"
  else
    let body :=
      if u <? Second then
        let '(prec, unit) :=
          if u <? 1000 then (0%nat, "ns")
          else if u <? 1000000 then (3%nat, String.append micro "s")
          else (6%nat, "ms") in
        let '(tail, u) := fmtFrac prec u false unit in
        fmtInt u tail
      else
        let '(tail, u) := fmtFrac 9 u false "s" in
        let tail := fmtInt (u mod 60) tail in
        let u := u / 60 in
        if 0 <? u then
          let tail := fmtInt (u mod 60) (String "m" tail) in
          let u := u / 60 in
          if 0 <? u then fmtInt u (String "h" tail) else tail
        else tail in
    if d <? 0 then String "-" body else body.

(** ** [time.ParseDuration] *)

(** [leadingInt]: the leading digits as a number, and the rest; [None] on
    overflow. *)
Fixpoint leadingInt (s : string) (x : Z) : option (Z * string) :=
  match s with
  | String c rest =>
      if isDigit c then
        if 2 ^ 63 / 10 <? x then None
        else
          let x := x * 10 + digitVal c in
          if 2 ^ 63 <? x then None else leadingInt rest x
      else Some (x, s)
  | EmptyString => Some (x, s)
  end.

(** [leadingFraction]: the leading digits as a number and its scale, and
    the rest; digits past an overflow are skipped. *)
Fixpoint leadingFraction (s : string) (x : Z) (scale : float64)
    (overflow : bool) : Z * float64 * string :=
  match s with
  | String c rest =>
      if isDigit c then
        if overflow then leadingFraction rest x scale overflow
        else if (2 ^ 63 - 1) / 10 <? x then leadingFraction rest x scale true
        else
          let y := x * 10 + digitVal c in
          if 2 ^ 63 <? y then leadingFraction rest x scale true
          else leadingFraction rest y (scale * 10)%float false
      else (x, scale, s)
  | EmptyString => (x, scale, s)
  end.

(** The unit of a duration: the characters up to the next digit or dot. *)
Fixpoint splitUnit (s : string) : string * string :=
  match s with
  | String c rest =>
      if isDigit c || Ascii.eqb c "." then (EmptyString, s)
      else let '(u, r) := splitUnit rest in (String c u, r)
  | EmptyString => (EmptyString, s)
  end.

Definition unitMap (u : string) : option Z :=
  if String.eqb u "ns" then Some 1
  else if String.eqb u "us" then Some 1000
  else if String.eqb u (String.append micro "s") then Some 1000
  else if String.eqb u "ms" then Some 1000000
  else if String.eqb u "s" then Some 1000000000
  else if String.eqb u "m" then Some 60000000000
  else if String.eqb u "h" then Some 3600000000000
  else None.

(** [uint64(x)] for a float in range: truncation. *)
Definition uint64_of_float64 (x : float64) : Z :=
  match FloatOps.Prim2SF x with
  | S754_finite false m e =>
      if 0 <=? e then Z.pos m * 2 ^ e else Z.pos m / 2 ^ (- e)
  | _ => 0
  end.

(** The loop of [ParseDuration] over the groups number-fraction-unit. *)
Fixpoint parseGroups (fuel : nat) (s : string) (d : Z) : option Z :=
  match fuel with
  | O => None
  | S fuel =>
      match s with
      | EmptyString => Some d
      | String c _ =>
          if negb (Ascii.eqb c "." || isDigit c) then None
          else
            match leadingInt s 0 with
            | None => None
            | Some (v, s1) =>
                let pre := negb (String.length s1 =? String.length s)%nat in
                let '(f, scale, s2, post) :=
                  match s1 with
                  | String "." s1' =>
                      let '(f, scale, s2) := leadingFraction s1' 0 1%float false in
                      (f, scale, s2,
                       negb (String.length s2 =? String.length s1')%nat)
                  | _ => (0, 1%float, s1, false)
                  end in
                if negb pre && negb post then None
                else
                  let '(u, s3) := splitUnit s2 in
                  match unitMap u with
                  | None => None
                  | Some unit =>
                      if 2 ^ 63 / unit <? v then None
                      else
                        let v := v * unit in
                        let v :=
                          if 0 <? f then
                            v + uint64_of_float64
                                  (float64_of_int f * (float64_of_int unit / scale))%float
                          else v in
                        if 2 ^ 63 <? v then None
                        else
                          let d := d + v in
                          if 2 ^ 63 <? d then None else parseGroups fuel s3 d
                  end
            end
      end
  end.

Definition ParseDuration (orig : string) : option Duration :=
  let '(neg, s) :=
    match orig with
    | String "-" rest => (true, rest)
    | String "+" rest => (false, rest)
    | _ => (false, orig)
    end in
  if String.eqb s "0" then Some 0
  else if String.eqb s "" then None
  else
    match parseGroups (S (String.length s)) s 0 with
    | None => None
    | Some d =>
        if neg then Some (- d)
        else if 2 ^ 63 - 1 <? d then None else Some d
    end.

(** ** [Time.MarshalJSON] and [Time.UnmarshalJSON]

    RFC 3339 with nanoseconds, as [MarshalJSON] writes it. The parser accepts
    that format strictly (two-digit fields, one to nine fraction digits, [Z]
    or a numeric offset), which is the part of [time.Parse] the examples
    use. *)

(** Days since 1970-01-01 of a date of the proleptic Gregorian calendar. *)
Definition daysFromCivil (y m d : Z) : Z :=
  let y := if m <=? 2 then y - 1 else y in
  let era := y / 400 in
  let yoe := y - era * 400 in
  let doy := (153 * (if 2 <? m then m - 3 else m + 9) + 2) / 5 + d - 1 in
  let doe := yoe * 365 + yoe / 4 - yoe / 100 + doy in
  era * 146097 + doe - 719468.

(** The date (year, month, day) of a number of days since 1970-01-01. *)
Definition civilFromDays (z : Z) : Z * Z * Z :=
  let z := z + 719468 in
  let era := z / 146097 in
  let doe := z - era * 146097 in
  let yoe := (doe - doe / 1460 + doe / 36524 - doe / 146096) / 365 in
  let doy := doe - (365 * yoe + yoe / 4 - yoe / 100) in
  let mp := (5 * doy + 2) / 153 in
  let d := doy - (153 * mp + 2) / 5 + 1 in
  let m := if mp <? 10 then mp + 3 else mp - 9 in
  ((if m <=? 2 then yoe + era * 400 + 1 else yoe + era * 400), m, d).

Definition isLeap (y : Z) : bool :=
  (y mod 4 =? 0) && (negb (y mod 100 =? 0) || (y mod 400 =? 0)).

Definition daysIn (m y : Z) : Z :=
  if m =? 2 then (if isLeap y then 29 else 28)
  else if (m =? 4) || (m =? 6) || (m =? 9) || (m =? 11) then 30 else 31.

Definition quote : ascii := ascii_of_nat 34.

(** [v] in exactly [width] digits before [tail]. *)
Fixpoint pad (width : nat) (v : Z) (tail : string) : string :=
  match width with
  | O => tail
  | S width => pad width (v / 10) (String (digitChar (v mod 10)) tail)
  end.

Definition MarshalJSON (t : Time) : option string :=
  let secs := t / Second in
  let nsec := t mod Second in
  let '(y, m, d) := civilFromDays (secs / 86400) in
  let sod := secs mod 86400 in
  if (y <? 0) || (10000 <=? y) then None
  else
    let tail := String "Z" (String quote EmptyString) in
    let tail := fst (fmtFrac 9 nsec false tail) in
    let tail := String ":" (pad 2 (sod mod 60) tail) in
    let tail := String ":" (pad 2 (sod / 60 mod 60) tail) in
    let tail := String "T" (pad 2 (sod / 3600) tail) in
    let tail := String "-" (pad 2 d tail) in
    let tail := String "-" (pad 2 m tail) in
    Some (String quote (pad 4 y tail)).

(** Exactly [n] digits, as a number. *)
Fixpoint digits (n : nat) (s : string) (x : Z) : option (Z * string) :=
  match n with
  | O => Some (x, s)
  | S n =>
      match s with
      | String c rest =>
          if isDigit c then digits n rest (x * 10 + digitVal c) else None
      | EmptyString => None
      end
  end.

(** The character [c], then the rest. *)
Definition expect (c : ascii) (s : string) : option string :=
  match s with
  | String c' rest => if Ascii.eqb c c' then Some rest else None
  | EmptyString => None
  end.

(** One to nine fraction digits, as nanoseconds. *)
Fixpoint fraction (n : nat) (s : string) (x : Z) : Z * string :=
  match n with
  | O => (x, s)
  | S n =>
      match s with
      | String c rest =>
          if isDigit c then fraction n rest (x * 10 + digitVal c)
          else (x * 10 ^ Z.of_nat (S n), s)
      | EmptyString => (x * 10 ^ Z.of_nat (S n), s)
      end
  end.

(** The optional fraction of a second, as nanoseconds. *)
Definition fractionPart (s : string) : option (Z * string) :=
  match s with
  | String "." rest =>
      match rest with
      | String c _ => if isDigit c then Some (fraction 9 rest 0) else None
      | EmptyString => None
      end
  | _ => Some (0, s)
  end.

(** The zone, as the seconds east of UTC. *)
Definition zoneOffset (s : string) : option (Z * string) :=
  match s with
  | String "Z" rest => Some (0, rest)
  | String sign rest =>
      if Ascii.eqb sign "+" || Ascii.eqb sign "-" then
        '(oh, rest) ← digits 2 rest 0;
        rest ← expect ":" rest;
        '(om, rest) ← digits 2 rest 0;
        if (oh <? 24) && (om <? 60) then
          Some ((if Ascii.eqb sign "-" then -1 else 1) * (oh * 3600 + om * 60),
                rest)
        else None
      else None
  | EmptyString => None
  end.

Definition parseRFC3339 (data : string) : option Time :=
  s ← expect quote data;
  '(y, s) ← digits 4 s 0;
  s ← expect "-" s;
  '(m, s) ← digits 2 s 0;
  s ← expect "-" s;
  '(d, s) ← digits 2 s 0;
  s ← expect "T" s;
  '(hh, s) ← digits 2 s 0;
  s ← expect ":" s;
  '(mm, s) ← digits 2 s 0;
  s ← expect ":" s;
  '(ss, s) ← digits 2 s 0;
  '(ns, s) ← fractionPart s;
  '(off, s) ← zoneOffset s;
  s ← expect quote s;
  if String.eqb s ""
     && (1 <=? m) && (m <=? 12) && (1 <=? d) && (d <=? daysIn m y)
     && (hh <? 24) && (mm <? 60) && (ss <? 60)
  then Some ((daysFromCivil y m d * 86400 + hh * 3600 + mm * 60 + ss - off)
             * Second + ns)
  else None.

(** [*t, err = Parse(...)]: a failed parse stores the zero [Time]. *)
Definition UnmarshalJSON (t : Time) (data : string) : Time * bool :=
  match parseRFC3339 data with
  | Some t' => (t', true)
  | None => (zeroTime, false)
  end.

(** ** Package stats

    Modelled from the spec: the sources of [github.com/montanaflynn/stats]
    are not in the repository. Mean, population variance and population
    covariance are the textbook formulas, summed from the left in
    [float64]; an empty input is [EmptyInput], lists of different lengths
    are [SizeErr]. *)

Definition Sum (input : list float64) : float64 :=
  fold_left PrimFloat.add input 0%float.

Definition Len (input : list float64) : float64 :=
  float64_of_int (Z.of_nat (length input)).

Definition Mean (input : list float64) : float64 * option error :=
  match input with
  | [] => (nan, Some EmptyInput)
  | _ => ((Sum input / Len input)%float, None)
  end.

Definition PopulationVariance (input : list float64) : float64 * option error :=
  match input with
  | [] => (nan, Some EmptyInput)
  | _ =>
      let m := fst (Mean input) in
      let variance :=
        fold_left (fun variance n => (variance + (n - m) * (n - m))%float)
          input 0%float in
      ((variance / Len input)%float, None)
  end.

Definition CovariancePopulation (data1 data2 : list float64)
  : float64 * option error :=
  if (length data1 =? 0)%nat || (length data2 =? 0)%nat
  then (nan, Some EmptyInput)
  else if negb (length data1 =? length data2)%nat then (nan, Some SizeErr)
  else
    let m1 := fst (Mean data1) in
    let m2 := fst (Mean data2) in
    let s :=
      fold_left
        (fun s '(x1, x2) => (s + (x1 - m1) * (x2 - m2))%float)
        (combine data1 data2) 0%float in
    ((s / Len data1)%float, None).

End GoStd.

Definition goTime : TimePkg := {|
  MarshalJSON := GoStd.MarshalJSON;
  UnmarshalJSON := GoStd.UnmarshalJSON;
  DurationString := GoStd.DurationString;
  ParseDuration := GoStd.ParseDuration
|}.

Definition goStats : StatsPkg := {|
  CovariancePopulation := GoStd.CovariancePopulation;
  PopulationVariance := GoStd.PopulationVariance;
  Mean := GoStd.Mean
|}.

(** ** The observation window as the spec describes it

    The eviction of the spec, to be compared with the loops of
    [removeOldUtils]: scan the window in stored order, drop every
    observation none of whose entries is within the horizon, stop at the
    first one that has such an entry. *)

(** The spec's RetentionHorizon: [min(bootLatencySeconds * 20, 600)]. *)
Definition RetentionHorizon (bootLatencySeconds : float64) : float64 :=
  math_Min (bootLatencySeconds * 20)%float 600%float.

Section Window.
Context `{TP : TimePkg}.
Variable clock : nat -> Time.

(** The range test on an instant at the [n]-th reading of the clock: its age
    in seconds is below the horizon. *)
Definition inRange (horizon : float64) (n : nat) (u : Time) : bool :=
  PrimFloat.ltb (Seconds (Since clock n u)) horizon.

(** Whether an entry of the observation passes the range test, when the
    time variable holds [u] and [n] readings of the clock were made. *)
Fixpoint anyInRange (horizon : float64) (m : observation) (u : Time) (n : nat)
  : bool :=
  match m with
  | [] => false
  | entry :: m =>
      let u := fst (UnmarshalJSON u (fst entry)) in
      inRange horizon n u || anyInRange horizon m u (S n)
  end.

(** The content of the time variable after the entries of [m]. *)
Definition timeAfter (m : observation) (u : Time) : Time :=
  fold_left (fun u entry => fst (UnmarshalJSON u (fst entry))) m u.

Fixpoint evictOlderThan (horizon : float64) (w : observations) (u : Time)
    (n : nat) : observations :=
  match w with
  | [] => []
  | m :: rest =>
      if anyInRange horizon m u n then m :: rest
      else evictOlderThan horizon rest (timeAfter m u) (n + length m)
  end.

(** An observation of one entry, as [updateUtilizationObservations] records
    them, whose key parses to the instant [ts]. *)
Definition timestamped (m : observation) (ts : Time) : Prop :=
  exists key v, m = [(key, v)] /\ forall u, UnmarshalJSON u key = (ts, true).

End Window.

(** ** Pods: definitions for the statements *)

(** The condition [initTimeForPod] stops at: the first one of type
    [PodReady]. *)
Definition isReady (c : PodCondition) : bool := String.eqb (CondType c) PodReady.

Definition readyCondition (pod : Pod) : option PodCondition :=
  find isReady (Conditions (Status pod)).

(** The latencies [initTimeForPods] collects, pod after pod, up to the first
    error; the store is threaded as the calls do. *)
Fixpoint latencies `{TP : TimePkg} (pods : list Pod) (h : store)
  : (error + list float64) * store :=
  match pods with
  | [] => (inr [], h)
  | pod :: rest =>
      match initTimeForPod pod h with
      | ((_, Some err), h) => (inl err, h)
      | ((pit, None), h) =>
          match latencies rest h with
          | (inl err, h) => (inl err, h)
          | (inr pits, h) => (inr (pit :: pits), h)
          end
      end
  end.

(** The arithmetic mean, summed from the left as the loop does. *)
Definition mean (pits : list float64) : float64 :=
  (fold_left PrimFloat.add pits 0 / float64_of_int (Z.of_nat (length pits)))%float.

(** ** Concrete inputs *)

Module Examples.

(** A JSON string: [s] between two quotes. *)
Definition quoted (s : string) : string :=
  String GoStd.quote (String.append s (String GoStd.quote EmptyString)).

(** 2016-01-01T00:10:00Z, and a clock that stands still there. *)
Definition now : Time := 1451607000 * Second.
Definition frozen : nat -> Time := fun _ => now.
Definition nowJSON : string := quoted "2016-01-01T00:10:00Z".

(** The instants of the repository's tests: eleven minutes and one minute
    before [now]. *)
Definition elevenMinutesAgo : string := quoted "2015-12-31T23:59:00Z".
Definition oneMinuteAgo : string := quoted "2016-01-01T00:09:00Z".

(** A key written [age] seconds before [now]. *)
Definition aged (age : Z) : string :=
  default EmptyString (GoStd.MarshalJSON (now - age * Second)).

End Examples.

Module PodExamples.

(** A pod created at [created] with the given conditions and a nil
    annotation map. *)
Definition pod (created : Time) (conds : list PodCondition) : Pod :=
  {| Meta := {| Annotations := None; CreationTimestamp := created |};
     Status := {| Conditions := conds |} |}.

Definition ready (at_ : Time) : PodCondition :=
  {| CondType := PodReady; LastTransitionTime := at_ |}.

Definition created : Time := Examples.now - 300 * Second.

(** The two pods of [createTestPods]: created five minutes ago, ready one
    and two minutes ago. *)
Definition pod1 : Pod := pod created [ready (Examples.now - 60 * Second)].
Definition pod2 : Pod := pod created [ready (Examples.now - 120 * Second)].

(** Pods that took 60 and 120 seconds to become ready, and one that has
    only been scheduled. *)
Definition pod60 : Pod := pod created [ready (created + 60 * Second)].
Definition pod120 : Pod := pod created [ready (created + 120 * Second)].
Definition unready : Pod :=
  pod created [{| CondType := "PodScheduled"; LastTransitionTime := created |}].

(** A pod that took 60 seconds, whose annotation map, at address 1 of
    [cachedStore], already records 5 seconds; and one whose recorded value
    is not a duration. *)
Definition cachedPod : Pod :=
  {| Meta := {| Annotations := Some 1%positive; CreationTimestamp := created |};
     Status := {| Conditions := [ready (created + 60 * Second)] |} |}.
Definition cachedStore : store := {[ 1%positive := {[ PitAnnotationName := "5s" ]} ]}.
Definition brokenStore : store := {[ 1%positive := {[ PitAnnotationName := "soon" ]} ]}.

(** The same pod with an empty, non-nil annotation map. *)
Definition emptyStore : store := {[ 1%positive := ∅ ]}.

End PodExamples.

Module FitExamples.

(** The data of [TestLineOfBestFit]. *)
Definition seconds : list float64 := [3; 5; 3; 7; 5; 8; 7; 4; 6; 2]%float.
Definition utilization : list float64 :=
  [21; 26; 20; 32; 23; 42; 35; 24; 30; 17]%float.

(** Three observations written within the same second. *)
Definition sameSecond : observations :=
  [[(Examples.nowJSON, 50)]; [(Examples.nowJSON, 60)]; [(Examples.nowJSON, 70)]].

End FitExamples.

(** ** Further definitions for the statements *)

(** Every annotation of the store [h] is in [h'] with the same value: maps
    and entries may have been added, none changed or removed. *)
Definition extends (h h' : store) : Prop :=
  forall (l : loc) (m : annotationMap) (key value : string),
    h !! l = Some m -> m !! key = Some value ->
    exists m', h' !! l = Some m' /\ m' !! key = Some value.

(** The age in seconds that [removeOldUtils] computes for an instant, when
    the clock reads [now]. *)
Definition age (now u : Time) : float64 := Seconds (Sub now u).

(** The entries of a window in the order the loops visit them. *)
Definition entries (w : observations) : list (string * Z) := concat w.

(** A specification float with the sign [s], or NaN. *)
Definition signed (s : bool) (x : spec_float) : Prop :=
  match x with
  | S754_nan => True
  | S754_zero s' | S754_infinity s' | S754_finite s' _ _ => s' = s
  end.

(** A specification float that is zero, negative or NaN. *)
Definition notPositive (x : spec_float) : Prop :=
  match x with
  | S754_nan | S754_zero _ => True
  | S754_infinity s | S754_finite s _ _ => s = true
  end.

(** ** Reals: definitions for the rounding of [float64] *)

(** Powers of two, as reals. *)
Definition bpow (e : Z) : R := powerRZ 2 e.

(** The real [M * 2^E]. *)
Definition pval (M E : Z) : R := (IZR M * bpow E)%R.

(** The real a finite binary64 value denotes. *)
Definition SF2R (x : spec_float) : R :=
  match x with
  | S754_finite s m e =>
      if s then (- pval (Z.pos m) e)%R else pval (Z.pos m) e
  | _ => 0%R
  end.

(** The record [mrs] describes the real [y]: its mantissa is the integer
    part, the round bit tells whether the fraction reaches one half, the
    sticky bit whether the fraction is neither zero nor one half. *)
Definition Repr (y : R) (mrs : shr_record) : Prop :=
  (IZR (shr_m mrs) <= y < IZR (shr_m mrs) + 1)%R /\
  (shr_r mrs = true <-> (IZR (shr_m mrs) + / 2 <= y)%R) /\
  (shr_s mrs = true <->
   (y <> IZR (shr_m mrs) /\ y <> (IZR (shr_m mrs) + / 2)%R)).

(** [X] is the integer nearest to [y], the even one of the two when [y] is
    half-way. *)
Definition IsRNE (y : R) (X : Z) : Prop :=
  (IZR X - / 2 <= y <= IZR X + / 2)%R /\
  (y = (IZR X - / 2)%R \/ y = (IZR X + / 2)%R -> Z.even X = true).

(** [M * 2^E] is the binary64 value nearest to [v], ties to even: [v] lies
    in the binade [[2^(k-1), 2^k)], the mantissa is [v] scaled to 53 bits
    and rounded to an integer, and a mantissa that rounds up to [2^53] moves
    to the next binade. *)
Definition RNrel (v : R) (M E : Z) : Prop :=
  exists k X : Z,
    (bpow (k - 1) <= v < bpow k)%R /\
    IsRNE (v * bpow (53 - k)) X /\
    ((X = 2 ^ 53 /\ M = 2 ^ 52 /\ E = k - 52) \/
     (X < 2 ^ 53 /\ M = X /\ E = k - 53)).

(** The order of two normal binary64 values, on mantissa and exponent. *)
Definition ple (M1 E1 M2 E2 : Z) : Prop :=
  E1 < E2 \/ (E1 = E2 /\ M1 <= M2).

(** [float64(r) / 1e9], the second operand of the sum in [Seconds], as a
    real. *)
Definition secondFraction (r : Z) : R :=
  SF2R (Prim2SF (float64_of_int r / 1e9)).

(** The real that [Seconds] rounds, for a duration of [a] nanoseconds:
    the whole seconds plus the fraction as [float64] has it. *)
Definition secondsBeforeRounding (a : Z) : R :=
  (IZR (a / Second) + secondFraction (a mod Second))%R.

Module HPAExamples.

(** An autoscaler without annotations, and one with the map at address 1. *)
Definition bare : HorizontalPodAutoscaler :=
  {| HPAMeta := {| Annotations := None; CreationTimestamp := Examples.now |} |}.
Definition annotated : HorizontalPodAutoscaler :=
  {| HPAMeta := {| Annotations := Some 1%positive;
                   CreationTimestamp := Examples.now |} |}.

End HPAExamples.

(** * Properties *)

(** Splits a conjunction into all its parts. *)
Ltac conjuncts := repeat match goal with |- _ /\ _ => split end.

(** ** The loops of [removeOldUtils] *)

Section WindowFacts.
Context `{TP : TimePkg}.
Variable clock : nat -> Time.

Lemma scanKey_t (h : float64) (i : Z) (s : scan) (entry : string * Z) :
  t (scanKey clock h i s entry) = fst (UnmarshalJSON (t s) (fst entry)).
Proof. unfold scanKey. by destruct (PrimFloat.ltb _ h). Qed.

Lemma scanKey_reads (h : float64) (i : Z) (s : scan) (entry : string * Z) :
  reads (scanKey clock h i s entry) = S (reads s).
Proof. unfold scanKey. by destruct (PrimFloat.ltb _ h). Qed.

Lemma scanKey_fold (h : float64) (i : Z) (m : observation) (s : scan) :
  fold_left (scanKey clock h i) m s =
  {| firstToKeep :=
       if anyInRange clock h m (t s) (reads s) then i else firstToKeep s;
     stop := anyInRange clock h m (t s) (reads s) || stop s;
     t := timeAfter m (t s);
     reads := reads s + length m |}.
Proof.
  revert s. induction m as [|entry m IH]; intros s.
  - destruct s. simpl. by rewrite Nat.add_0_r.
  - cbn [fold_left]. rewrite IH, scanKey_t, scanKey_reads.
    cbn [anyInRange timeAfter fold_left length].
    rewrite <- Nat.add_succ_comm.
    unfold scanKey, inRange.
    destruct (PrimFloat.ltb _ h); cbn [firstToKeep stop orb]; f_equal.
    + by destruct (anyInRange _ _ _ _ _).
    + by rewrite orb_true_r.
Qed.

Lemma scanObservations_stopped (h : float64) (i : Z) (w : observations)
    (s : scan) :
  stop s = true -> scanObservations clock h i w s = s.
Proof. intros Hs. destruct w; simpl; [done | by rewrite Hs]. Qed.

(** The loops find the suffix the eviction of the spec keeps: [pre] is the
    part of the window already scanned. *)
Lemma scanObservations_evict (h : float64) (w pre : observations) (s : scan) :
  stop s = false -> firstToKeep s = -1 ->
  let r := scanObservations clock h (Z.of_nat (length pre)) w s in
  (if firstToKeep r =? -1 then []
   else drop (Z.to_nat (firstToKeep r)) (pre ++ w)) =
  evictOlderThan clock h w (t s) (reads s).
Proof.
  revert pre s. induction w as [|m rest IH]; intros pre s Hstop Hfirst.
  - simpl. by rewrite Hfirst.
  - cbn [scanObservations evictOlderThan]. rewrite Hstop, scanKey_fold.
    destruct (anyInRange clock h m (t s) (reads s)) eqn:Hin.
    + rewrite scanObservations_stopped by done. cbn [firstToKeep].
      destruct (Z.eqb_spec (Z.of_nat (length pre)) (-1)); [lia |].
      rewrite Nat2Z.id, drop_app_length. done.
    + specialize (IH (pre ++ [m])
        {| firstToKeep := firstToKeep s; stop := false || stop s;
           t := timeAfter m (t s); reads := reads s + length m |}).
      rewrite length_app, Nat2Z.inj_add in IH. cbn [length] in IH.
      rewrite <- app_assoc in IH. cbn [app] in IH.
      change (Z.of_nat 1) with 1 in IH.
      apply IH; cbn [stop firstToKeep orb]; done.
Qed.

(** [removeOldUtils] is the eviction of the spec at the horizon
    [min(podInitTime * 20, 600)]. *)
Lemma removeOldUtils_evict (n : nat) (w : observations) (pit : float64) :
  removeOldUtils clock n w pit =
  evictOlderThan clock (RetentionHorizon pit) w zeroTime n.
Proof.
  unfold removeOldUtils, RetentionHorizon.
  change (60 * 10)%float with 600%float.
  exact (scanObservations_evict _ w []
           {| firstToKeep := -1; stop := false; t := zeroTime; reads := n |}
           eq_refl eq_refl).
Qed.

(** What the eviction keeps is a suffix of the window. *)
Lemma evictOlderThan_suffix (h : float64) (w : observations) (u : Time)
    (n : nat) :
  exists evicted, w = evicted ++ evictOlderThan clock h w u n.
Proof.
  revert u n. induction w as [|m rest IH]; intros u n.
  - by exists [].
  - simpl. destruct (anyInRange _ _ _ _ _).
    + by exists [].
    + destruct (IH (timeAfter m u) (n + length m)%nat) as [ev Hev].
      exists (m :: ev). simpl. by rewrite <- Hev.
Qed.

End WindowFacts.

Section WindowShape.
Context `{TP : TimePkg}.
Variable clock : nat -> Time.

(** [updateUtilizationObservations] fails only when the current time cannot
    be written, and otherwise appends one record to a suffix of the
    window. *)
Lemma updateUtilizationObservations_shape (n : nat) (cpu : Z)
    (prev : observations) (pit : float64) :
  match MarshalJSON (clock n) with
  | None =>
      updateUtilizationObservations clock n cpu prev pit
      = ([], Some MarshalTimeError)
  | Some jsonTime =>
      exists evicted survivors,
        prev = evicted ++ survivors /\
        updateUtilizationObservations clock n cpu prev pit
        = (survivors ++ [[(jsonTime, cpu)]], None)
  end.
Proof.
  unfold updateUtilizationObservations.
  destruct (MarshalJSON (clock n)) as [js|]; [|done].
  rewrite removeOldUtils_evict.
  destruct (evictOlderThan_suffix clock (RetentionHorizon pit) prev zeroTime (S n))
    as [ev Hev].
  by exists ev, (evictOlderThan clock (RetentionHorizon pit) prev zeroTime (S n)).
Qed.

(** On a window of timestamped one-entry observations, the eviction drops
    the first [k] of them: each of these failed the range test at its
    reading of the clock, and the next one, if any, passed it. *)
Lemma evictOlderThan_timestamped (h : float64) (w : observations)
    (tss : list Time) :
  Forall2 (timestamped (TP := TP)) w tss ->
  forall (u : Time) (n : nat),
  exists k : nat,
    (k <= length w)%nat /\
    evictOlderThan clock h w u n = drop k w /\
    (forall j ts, (j < k)%nat -> tss !! j = Some ts ->
       inRange clock h (n + j) ts = false) /\
    (forall ts, tss !! k = Some ts -> inRange clock h (n + k) ts = true).
Proof.
  induction 1 as [|m ts w tss (key & v & -> & Hkey) Hw IH]; intros u n.
  - exists 0%nat. conjuncts; [done | done | intros; lia | done].
  - cbn [evictOlderThan anyInRange timeAfter fold_left length fst].
    rewrite Hkey. cbn [fst]. rewrite orb_false_r.
    destruct (inRange clock h n ts) eqn:Hin.
    + exists 0%nat. conjuncts; [simpl; lia | done | intros; lia |].
      intros ts' [= <-]. by rewrite Nat.add_0_r.
    + destruct (IH ts (n + 1)%nat) as (k & Hk & Hev & Hout & Hfirst).
      exists (S k). conjuncts; [simpl; lia | done | |].
      * intros [|j] ts' Hj Hts; simpl in Hts.
        -- injection Hts as <-. by rewrite Nat.add_0_r.
        -- replace (n + S j)%nat with (n + 1 + j)%nat by lia.
           apply Hout; [lia | done].
      * intros ts' Hts. simpl in Hts.
        replace (n + S k)%nat with (n + 1 + k)%nat by lia. by apply Hfirst.
Qed.

End WindowShape.

Lemma StronglySorted_drop {A : Type} (R : A -> A -> Prop) (l : list A)
    (k : nat) :
  StronglySorted R l -> StronglySorted R (drop k l).
Proof.
  revert l. induction k as [|k IH]; intros l Hl; [done |].
  destruct l as [|x l]; [done |]. simpl. apply IH. by inversion Hl.
Qed.

Lemma sorted_from (tss : list Time) (k : nat) (ts : Time) :
  Sorted Z.le tss -> tss !! k = Some ts -> Forall (Z.le ts) (drop k tss).
Proof.
  intros Hs Hk. apply Sorted_StronglySorted in Hs; [|red; intros; lia].
  apply (StronglySorted_drop _ _ k) in Hs.
  rewrite (drop_S _ _ _ Hk) in Hs |- *. inversion Hs; subst.
  constructor; [lia | done].
Qed.

(** ** The order of [float64] *)

(** Case analysis on the comparisons of two specification floats. *)
Ltac sf_cases :=
  repeat match goal with
  | |- context [Z.compare ?a ?b] => destruct (Z.compare_spec a b); subst
  | |- context [PosDef.Pos.compare_cont Eq ?a ?b] =>
      change (PosDef.Pos.compare_cont Eq a b) with (Pos.compare a b);
      destruct (Pos.compare_spec a b); subst
  | H : context [Z.compare ?a ?b] |- _ => destruct (Z.compare_spec a b); subst
  | H : context [PosDef.Pos.compare_cont Eq ?a ?b] |- _ =>
      change (PosDef.Pos.compare_cont Eq a b) with (Pos.compare a b) in H;
      destruct (Pos.compare_spec a b); subst
  end; simpl in *; try discriminate; try reflexivity; try lia.

Ltac sf_destruct a b c :=
  unfold SFltb, SFleb, SFeqb, SFcompare;
  destruct a as [[|]|[|]| |[|] ? ?], b as [[|]|[|]| |[|] ? ?],
           c as [[|]|[|]| |[|] ? ?]; simpl; try discriminate; try reflexivity;
  intros; sf_cases.

Lemma SFltb_trans (a b c : spec_float) :
  SFltb a b = true -> SFltb b c = true -> SFltb a c = true.
Proof. sf_destruct a b c. Qed.

Lemma SFleb_trans (a b c : spec_float) :
  SFleb a b = true -> SFleb b c = true -> SFleb a c = true.
Proof. sf_destruct a b c. Qed.

Lemma SFleb_ltb_trans (a b c : spec_float) :
  SFleb a b = true -> SFltb b c = true -> SFltb a c = true.
Proof. sf_destruct a b c. Qed.

Lemma SFltb_eqb_trans (a b c : spec_float) :
  SFltb a b = true -> SFeqb b c = true -> SFltb a c = true.
Proof. sf_destruct a b c. Qed.

Lemma SFltb_eqb_trans' (a b c : spec_float) :
  SFltb a c = true -> SFeqb b c = true -> SFltb a b = true.
Proof. sf_destruct a b c. Qed.

(** Below [c], and [b] not below [c] though comparable: below [b]. *)
Lemma SFltb_not_ltb (a b c : spec_float) :
  SFltb a c = true -> SFltb b c = false ->
  SFeqb b b = true -> SFltb a b = true.
Proof. sf_destruct a b c. Qed.

Lemma ltb_trans (a b c : float64) :
  PrimFloat.ltb a b = true -> PrimFloat.ltb b c = true ->
  PrimFloat.ltb a c = true.
Proof. rewrite !FloatAxioms.ltb_spec. apply SFltb_trans. Qed.

Lemma leb_trans (a b c : float64) :
  PrimFloat.leb a b = true -> PrimFloat.leb b c = true ->
  PrimFloat.leb a c = true.
Proof. rewrite !FloatAxioms.leb_spec. apply SFleb_trans. Qed.

Lemma leb_ltb_trans (a b c : float64) :
  PrimFloat.leb a b = true -> PrimFloat.ltb b c = true ->
  PrimFloat.ltb a c = true.
Proof. rewrite FloatAxioms.leb_spec, !FloatAxioms.ltb_spec. apply SFleb_ltb_trans. Qed.

Lemma ltb_neg_infinity (a : float64) : PrimFloat.ltb a neg_infinity = false.
Proof.
  rewrite FloatAxioms.ltb_spec.
  replace (Prim2SF neg_infinity) with (S754_infinity true) by reflexivity.
  unfold SFltb, SFcompare. by destruct (Prim2SF a) as [[|]|[|]| |[|] ? ?].
Qed.

Lemma ltb_nan (a : float64) : PrimFloat.ltb a nan = false.
Proof.
  rewrite FloatAxioms.ltb_spec.
  replace (Prim2SF nan) with S754_nan by reflexivity.
  unfold SFltb, SFcompare. by destruct (Prim2SF a) as [[|]|[|]| |[|] ? ?].
Qed.

(** An age below [math.Min x y] is below [x] and below [y]. *)
Lemma ltb_math_Min (a x y : float64) :
  PrimFloat.ltb a (math_Min x y) = true ->
  PrimFloat.ltb a x = true /\ PrimFloat.ltb a y = true.
Proof.
  unfold math_Min.
  destruct (PrimFloat.eqb x neg_infinity || PrimFloat.eqb y neg_infinity);
    [by rewrite ltb_neg_infinity |].
  destruct (is_nan x || is_nan y) eqn:Hnan; [by rewrite ltb_nan |].
  apply orb_false_elim in Hnan as [Hx _]. unfold is_nan in Hx.
  apply negb_false_iff in Hx.
  destruct (PrimFloat.eqb x 0 && PrimFloat.eqb x y) eqn:Hzero.
  - apply andb_prop in Hzero as [_ Hxy].
    rewrite FloatAxioms.eqb_spec in Hxy. rewrite !FloatAxioms.ltb_spec.
    destruct (get_sign x); rewrite ?FloatAxioms.ltb_spec; intros Ha; split; try done.
    + by apply (SFltb_eqb_trans _ (Prim2SF x)).
    + by apply (SFltb_eqb_trans' _ _ (Prim2SF y)).
  - destruct (PrimFloat.ltb x y) eqn:Hlt; intros Ha; split; try done.
    + by apply (ltb_trans _ x).
    + rewrite FloatAxioms.ltb_spec in *. rewrite FloatAxioms.eqb_spec in Hx.
      by apply (SFltb_not_ltb _ _ (Prim2SF y)).
Qed.

(** ** Powers of two *)

Lemma bpow_pos (e : Z) : (0 < bpow e)%R.
Proof. apply powerRZ_lt. lra. Qed.

Lemma bpow_add (a b : Z) : bpow (a + b) = (bpow a * bpow b)%R.
Proof. apply powerRZ_add. lra. Qed.

Lemma bpow_0 : bpow 0 = 1%R.
Proof. reflexivity. Qed.

Lemma bpow_IZR (n : Z) : 0 <= n -> bpow n = IZR (2 ^ n).
Proof.
  intros Hn. destruct n as [|p|p]; [reflexivity | | lia].
  unfold bpow. change (2 ^ Z.pos p) with (Z.pow_pos 2 p).
  by rewrite Zpower_pos_powerRZ.
Qed.

Lemma bpow_le (a b : Z) : a <= b -> (bpow a <= bpow b)%R.
Proof.
  intros Hab. replace b with (a + (b - a)) by lia.
  rewrite bpow_add, (bpow_IZR (b - a)) by lia.
  assert (1 <= 2 ^ (b - a)) by (assert (0 < 2 ^ (b - a)) by (apply Z.pow_pos_nonneg; lia); lia).
  apply IZR_le in H. pose proof (bpow_pos a). nra.
Qed.

Lemma bpow_lt (a b : Z) : a < b -> (bpow a < bpow b)%R.
Proof.
  intros Hab. replace b with (a + (b - a)) by lia.
  rewrite bpow_add, (bpow_IZR (b - a)) by lia.
  assert (2 ^ 1 <= 2 ^ (b - a)) by (apply Z.pow_le_mono_r; lia).
  apply IZR_le in H. change (IZR (2 ^ 1)) with 2%R in H.
  pose proof (bpow_pos a). nra.
Qed.

Lemma bpow_lt_inv (a b : Z) : (bpow a < bpow b)%R -> a < b.
Proof.
  intros H. destruct (Z.lt_ge_cases a b) as [|Hge]; [done |].
  apply bpow_le in Hge. lra.
Qed.

Lemma bpow_opp (a : Z) : (bpow a * bpow (- a) = 1)%R.
Proof. rewrite <- bpow_add. replace (a + - a) with 0 by lia. reflexivity. Qed.

Lemma bpow_m1 : bpow (-1) = (/ 2)%R.
Proof. unfold bpow. simpl. by rewrite Rmult_1_r. Qed.

Lemma bpow_1 : bpow 1 = 2%R.
Proof. unfold bpow. simpl. by rewrite Rmult_1_r. Qed.

(** ** Binary digits *)

Lemma digits2_pos_bounds (p : positive) :
  2 ^ (Z.pos (digits2_pos p) - 1) <= Z.pos p < 2 ^ Z.pos (digits2_pos p).
Proof.
  induction p as [p IH|p IH|]; cbn [digits2_pos].
  - rewrite Pos2Z.inj_succ. change (Z.pos p~1) with (2 * Z.pos p + 1).
    replace (Z.succ (Z.pos (digits2_pos p)) - 1)
      with (Z.succ (Z.pos (digits2_pos p) - 1)) by lia.
    rewrite !Z.pow_succ_r by lia.
    generalize dependent (2 ^ (Z.pos (digits2_pos p) - 1)).
    generalize (2 ^ Z.pos (digits2_pos p)). intros; lia.
  - rewrite Pos2Z.inj_succ. change (Z.pos p~0) with (2 * Z.pos p).
    replace (Z.succ (Z.pos (digits2_pos p)) - 1)
      with (Z.succ (Z.pos (digits2_pos p) - 1)) by lia.
    rewrite !Z.pow_succ_r by lia.
    generalize dependent (2 ^ (Z.pos (digits2_pos p) - 1)).
    generalize (2 ^ Z.pos (digits2_pos p)). intros; lia.
  - simpl. lia.
Qed.

Lemma digits2_pos_unique (p : positive) (d : Z) :
  2 ^ (d - 1) <= Z.pos p < 2 ^ d -> Z.pos (digits2_pos p) = d.
Proof.
  intros [Hlo Hhi]. pose proof (digits2_pos_bounds p) as [Hlo' Hhi'].
  assert (Hd : 0 < d).
  { destruct (Z.lt_ge_cases 0 d) as [|Hd]; [done |].
    destruct (Z.eq_dec d 0) as [-> | Hne]; [simpl in Hhi; lia |].
    rewrite Z.pow_neg_r in Hhi by lia. lia. }
  destruct (Z.lt_trichotomy (Z.pos (digits2_pos p)) d) as [Hlt | [Heq | Hgt]];
    [| done |].
  - assert (2 ^ Z.pos (digits2_pos p) <= 2 ^ (d - 1))
      by (apply Z.pow_le_mono_r; lia). lia.
  - assert (2 ^ d <= 2 ^ (Z.pos (digits2_pos p) - 1))
      by (apply Z.pow_le_mono_r; lia). lia.
Qed.

(** ** Shifting right, with the round and sticky bits *)

Lemma Repr_nonneg (y : R) (mrs : shr_record) :
  (0 <= y)%R -> Repr y mrs -> 0 <= shr_m mrs.
Proof.
  intros Hy [[_ Hlt] _].
  destruct (Z.lt_ge_cases (shr_m mrs) 0) as [Hneg|]; [| done].
  assert (shr_m mrs + 1 <= 0) as H%IZR_le by lia.
  rewrite plus_IZR in H. lra.
Qed.

Lemma shr_1_Repr (y : R) (mrs : shr_record) :
  (0 <= y)%R -> Repr y mrs -> Repr (y / 2) (shr_1 mrs).
Proof.
  intros Hy Hrepr. pose proof (Repr_nonneg _ _ Hy Hrepr) as Hm.
  destruct mrs as [m r s]. cbn [shr_m] in Hm.
  destruct Hrepr as ([Hlo Hhi] & Hr & Hs). cbn [shr_m shr_r shr_s] in *.
  assert (Hrs : orb r s = true <-> y <> IZR m).
  { rewrite orb_true_iff, Hr, Hs. split.
    - intros [H | [H _]]; lra.
    - intros H. destruct (Rle_lt_dec (IZR m + / 2) y); [by left | right; lra]. }
  clear Hr Hs.
  assert (Hshape : exists (m' : Z) (b : bool), m = 2 * m' + (if b then 1 else 0) /\
            shr_1 {| shr_m := m; shr_r := r; shr_s := s |}
            = {| shr_m := m'; shr_r := b; shr_s := orb r s |}).
  { destruct m as [|[p|p|]|p]; [| | | | lia].
    - by exists 0, false.
    - by exists (Z.pos p), true.
    - by exists (Z.pos p), false.
    - by exists 0, true. }
  destruct Hshape as (m' & b & -> & ->). unfold Repr. cbn [shr_m shr_r shr_s].
  rewrite Hrs. clear Hrs.
  rewrite plus_IZR, mult_IZR in *.
  destruct b; (split; [lra |]); split.
  - split; [intros _; lra | done].
  - split.
    + intros H. split; intros Heq; [lra | apply H; lra].
    + intros [H1 H2] Heq. apply H2. lra.
  - split; [done | intros; lra].
  - split.
    + intros H. split; intros Heq; [apply H; lra | lra].
    + intros [H1 H2] Heq. apply H1. lra.
Qed.

Lemma iter_pos_shr_1_Repr (p : positive) (y : R) (mrs : shr_record) :
  (0 <= y)%R -> Repr y mrs ->
  Repr (y * bpow (Z.neg p)) (SpecFloat.iter_pos shr_1 p mrs).
Proof.
  revert y mrs. induction p as [p IH|p IH|]; intros y mrs Hy Hrepr;
    cbn [SpecFloat.iter_pos].
  - replace (y * bpow (Z.neg p~1))%R
      with (y / 2 * bpow (Z.neg p) * bpow (Z.neg p))%R.
    + pose proof (bpow_pos (Z.neg p)).
      apply IH; [apply Rmult_le_pos; lra |].
      apply IH; [lra |]. by apply shr_1_Repr.
    + replace (Z.neg p~1) with (-1 + (Z.neg p + Z.neg p)) by lia.
      rewrite !bpow_add, bpow_m1.
      unfold Rdiv. lra.
  - replace (y * bpow (Z.neg p~0))%R
      with (y * bpow (Z.neg p) * bpow (Z.neg p))%R.
    + pose proof (bpow_pos (Z.neg p)).
      apply IH; [apply Rmult_le_pos; lra |]. by apply IH.
    + replace (Z.neg p~0) with (Z.neg p + Z.neg p) by lia.
      rewrite !bpow_add. lra.
  - replace (y * bpow (-1))%R with (y / 2)%R; [by apply shr_1_Repr |].
    rewrite bpow_m1. unfold Rdiv. lra.
Qed.

Lemma shr_Repr (y : R) (mrs : shr_record) (e n : Z) :
  0 <= n -> (0 <= y)%R -> Repr y mrs ->
  Repr (y * bpow (- n)) (fst (shr mrs e n)) /\ snd (shr mrs e n) = e + n.
Proof.
  intros Hn Hy Hrepr. destruct n as [|p|p]; [| | lia].
  - simpl. rewrite Rmult_1_r. split; [done | lia].
  - cbn [shr fst snd]. split; [| done].
    change (- Z.pos p) with (Z.neg p). by apply iter_pos_shr_1_Repr.
Qed.

(** ** Rounding to the nearest integer, ties to even *)

Lemma round_nearest_even_Repr (y : R) (mrs : shr_record) :
  Repr y mrs ->
  IsRNE y (round_nearest_even (shr_m mrs) (loc_of_shr_record mrs)).
Proof.
  destruct mrs as [m r s]. intros ([Hlo Hhi] & Hr & Hs).
  cbn [shr_m shr_r shr_s] in *.
  destruct r, s; cbn [loc_of_shr_record round_nearest_even]; unfold IsRNE.
  - (* above one half *)
    assert ((IZR m + / 2 <= y)%R) by (by apply Hr).
    assert (y <> (IZR m + / 2)%R) by (by apply Hs).
    rewrite plus_IZR. split; [lra | intros [? | ?]; lra].
  - (* one half *)
    assert ((IZR m + / 2 <= y)%R) by (by apply Hr).
    assert (Hy : y = (IZR m + / 2)%R).
    { destruct (Req_dec y (IZR m + / 2)) as [|Hne]; [done |].
      assert (false = true); [| done]. apply Hs. split; [lra | done]. }
    destruct (Z.even m) eqn:Heven.
    + split; [lra | by rewrite Heven].
    + rewrite plus_IZR. split; [lra |]. intros _.
      rewrite Z.even_add, Heven. reflexivity.
  - (* below one half, not exact *)
    assert (~ (IZR m + / 2 <= y)%R) by (intros H; by apply Hr in H).
    assert (y <> IZR m) by (by apply Hs).
    split; [lra | intros [? | ?]; lra].
  - (* exact *)
    assert (~ (IZR m + / 2 <= y)%R) by (intros H; by apply Hr in H).
    assert (Hy : y = IZR m).
    { destruct (Req_dec y (IZR m)) as [|Hne]; [done |].
      assert (false = true); [| done]. apply Hs. split; [done | lra]. }
    split; [lra | intros [? | ?]; lra].
Qed.

Lemma IsRNE_mono (y1 y2 : R) (X1 X2 : Z) :
  (y1 <= y2)%R -> IsRNE y1 X1 -> IsRNE y2 X2 -> X1 <= X2.
Proof.
  intros Hy [[Hlo1 Hhi1] He1] [[Hlo2 Hhi2] He2].
  destruct (Z.le_gt_cases X1 X2) as [|Hgt]; [done |].
  assert (X2 + 1 <= X1) as Hle%IZR_le by lia. rewrite plus_IZR in Hle.
  assert (HX : X1 = X2 + 1).
  { apply eq_IZR. rewrite plus_IZR. lra. }
  assert (Z.even X1 = true) by (apply He1; left; lra).
  assert (Z.even X2 = true) by (apply He2; right; lra).
  subst X1. rewrite Z.even_add in H. rewrite H0 in H. done.
Qed.

Lemma IsRNE_int (z X : Z) : IsRNE (IZR z) X -> X = z.
Proof.
  intros [[Hlo Hhi] _].
  assert (X - 1 < z) by (apply lt_IZR; rewrite minus_IZR; lra).
  assert (z < X + 1) by (apply lt_IZR; rewrite plus_IZR; lra).
  lia.
Qed.

Lemma IsRNE_of_int (z : Z) : IsRNE (IZR z) z.
Proof. split; [lra | intros [? | ?]; lra]. Qed.

(** ** Rounding a positive real to binary64, in the normal range *)

Lemma binade_scaled (v : R) (k : Z) :
  (bpow (k - 1) <= v < bpow k)%R ->
  (IZR (2 ^ 52) <= v * bpow (53 - k) < IZR (2 ^ 53))%R.
Proof.
  intros [Hlo Hhi]. pose proof (bpow_pos (53 - k)) as Hp.
  rewrite <- !bpow_IZR by lia.
  assert (H52 : bpow 52 = (bpow (k - 1) * bpow (53 - k))%R)
    by (rewrite <- bpow_add; f_equal; lia).
  assert (H53 : bpow 53 = (bpow k * bpow (53 - k))%R)
    by (rewrite <- bpow_add; f_equal; lia).
  rewrite H52, H53. split.
  - apply Rmult_le_compat_r; lra.
  - apply Rmult_lt_compat_r; lra.
Qed.

Lemma binade_rounded (v : R) (k X : Z) :
  (bpow (k - 1) <= v < bpow k)%R -> IsRNE (v * bpow (53 - k)) X ->
  2 ^ 52 <= X <= 2 ^ 53.
Proof.
  intros Hv [[Hlo Hhi] _]. apply binade_scaled in Hv as [Hlo' Hhi'].
  assert (2 ^ 52 - 1 < X) by (apply lt_IZR; rewrite minus_IZR; lra).
  assert (X < 2 ^ 53 + 1) by (apply lt_IZR; rewrite plus_IZR; lra).
  lia.
Qed.

Lemma RNrel_canonical (v : R) (M E : Z) :
  RNrel v M E -> 2 ^ 52 <= M < 2 ^ 53.
Proof.
  intros (k & X & Hv & HX & Hcase).
  pose proof (binade_rounded _ _ _ Hv HX).
  destruct Hcase as [(-> & -> & _) | (? & -> & _)]; lia.
Qed.

Lemma binade_mono (v1 v2 : R) (k1 k2 : Z) :
  (v1 <= v2)%R ->
  (bpow (k1 - 1) <= v1 < bpow k1)%R -> (bpow (k2 - 1) <= v2 < bpow k2)%R ->
  k1 <= k2.
Proof.
  intros Hv [Hlo1 _] [_ Hhi2].
  assert (k1 - 1 < k2) by (apply bpow_lt_inv; lra). lia.
Qed.

(** Rounding is monotone. *)
Lemma RNrel_mono (v1 v2 : R) (M1 E1 M2 E2 : Z) :
  (v1 <= v2)%R -> RNrel v1 M1 E1 -> RNrel v2 M2 E2 -> ple M1 E1 M2 E2.
Proof.
  intros Hv (k1 & X1 & Hv1 & HX1 & Hc1) (k2 & X2 & Hv2 & HX2 & Hc2).
  pose proof (binade_mono _ _ _ _ Hv Hv1 Hv2) as Hk.
  pose proof (binade_rounded _ _ _ Hv1 HX1) as HB1.
  pose proof (binade_rounded _ _ _ Hv2 HX2) as HB2.
  destruct (Z.eq_dec k1 k2) as [-> | Hne].
  - assert (X1 <= X2).
    { apply (IsRNE_mono (v1 * bpow (53 - k2)) (v2 * bpow (53 - k2)));
        [| done | done].
      apply Rmult_le_compat_r; [pose proof (bpow_pos (53 - k2)); lra | done]. }
    unfold ple.
    destruct Hc1 as [(-> & -> & ->) | (? & -> & ->)],
             Hc2 as [(-> & -> & ->) | (? & -> & ->)]; lia.
  - unfold ple.
    destruct Hc1 as [(-> & -> & ->) | (? & -> & ->)],
             Hc2 as [(-> & -> & ->) | (? & -> & ->)]; lia.
Qed.

(** The order on mantissa and exponent is the order of the values. *)
Lemma ple_pval (M1 E1 M2 E2 : Z) :
  2 ^ 52 <= M1 < 2 ^ 53 -> 2 ^ 52 <= M2 < 2 ^ 53 ->
  ple M1 E1 M2 E2 -> (pval M1 E1 <= pval M2 E2)%R.
Proof.
  intros [Hlo1 Hhi1] [Hlo2 Hhi2] [Hlt | [-> Hle]]; unfold pval.
  - apply IZR_lt in Hhi1. apply IZR_le in Hlo2.
    assert (Hb : (bpow (E1 + 1) <= bpow E2)%R) by (apply bpow_le; lia).
    rewrite bpow_add, bpow_1 in Hb.
    pose proof (bpow_pos E1). pose proof (bpow_pos E2).
    replace (2 ^ 53) with (2 * 2 ^ 52) in Hhi1 by lia.
    rewrite mult_IZR in Hhi1.
    assert (0 < IZR (2 ^ 52))%R by (apply IZR_lt; lia).
    apply Rle_trans with (IZR (2 ^ 52) * bpow E2)%R.
    + apply Rle_trans with (IZR (2 ^ 52) * (bpow E1 * 2))%R.
      * assert (IZR M1 * bpow E1 <= 2 * IZR (2 ^ 52) * bpow E1)%R; [| lra].
        apply Rmult_le_compat_r; lra.
      * apply Rmult_le_compat_l; lra.
    + apply Rmult_le_compat_r; lra.
  - apply IZR_le in Hle. pose proof (bpow_pos E2).
    apply Rmult_le_compat_r; lra.
Qed.

Lemma ple_SFleb (m1 m2 : positive) (E1 E2 : Z) :
  ple (Z.pos m1) E1 (Z.pos m2) E2 ->
  SFleb (S754_finite false m1 E1) (S754_finite false m2 E2) = true.
Proof.
  unfold SFleb, SFcompare. intros [Hlt | [-> Hle]].
  - apply Z.compare_lt_iff in Hlt. by rewrite Hlt.
  - rewrite Z.compare_refl. rewrite Pos.compare_cont_spec. cbn.
    change (Z.pos m1 <= Z.pos m2) with (m1 <= m2)%positive in Hle.
    apply Pos.compare_le_iff in Hle.
    by destruct (m1 ?= m2)%positive.
Qed.

Lemma ple_SFleb_neg (m1 m2 : positive) (E1 E2 : Z) :
  ple (Z.pos m1) E1 (Z.pos m2) E2 ->
  SFleb (S754_finite true m2 E2) (S754_finite true m1 E1) = true.
Proof.
  unfold SFleb, SFcompare. intros [Hlt | [-> Hle]].
  - apply Z.compare_gt_iff in Hlt. by rewrite Hlt.
  - rewrite Z.compare_refl. rewrite Pos.compare_cont_spec. cbn.
    change (Z.pos m1 <= Z.pos m2) with (m1 <= m2)%positive in Hle.
    apply Pos.compare_ge_iff in Hle.
    by destruct (m2 ?= m1)%positive.
Qed.

(** A normal binary64 value rounds to itself. *)
Lemma RNrel_exact (M E : Z) :
  2 ^ 52 <= M < 2 ^ 53 -> RNrel (pval M E) M E.
Proof.
  intros [Hlo Hhi]. exists (E + 53), M. unfold pval.
  pose proof (bpow_pos E). conjuncts.
  - replace (E + 53 - 1) with (52 + E) by lia.
    rewrite bpow_add, (bpow_IZR 52) by lia.
    apply Rmult_le_compat_r; [lra | by apply IZR_le].
  - replace (E + 53) with (53 + E) by lia.
    rewrite bpow_add, (bpow_IZR 53) by lia.
    apply Rmult_lt_compat_r; [lra | by apply IZR_lt].
  - replace (53 - (E + 53)) with (- E) by lia.
    rewrite Rmult_assoc, bpow_opp, Rmult_1_r. apply IsRNE_of_int.
  - right. lia.
Qed.

(** An integer below [2^53] is a binary64 value. *)
Lemma RNrel_int (z M E : Z) :
  0 < z < 2 ^ 53 -> RNrel (IZR z) M E -> pval M E = IZR z.
Proof.
  intros [Hlo Hhi] (k & X & [Hv1 Hv2] & HX & Hcase).
  assert (Hk : k <= 53).
  { assert (k - 1 < 53); [| lia]. apply bpow_lt_inv.
    rewrite (bpow_IZR 53) by lia. apply IZR_lt in Hhi. lra. }
  rewrite (bpow_IZR (53 - k)), <- mult_IZR in HX by lia.
  apply IsRNE_int in HX.
  assert (Hz : (IZR z < IZR (2 ^ 53) * bpow (k - 53))%R).
  { rewrite <- bpow_IZR, <- bpow_add by lia.
    by replace (53 + (k - 53)) with k by lia. }
  assert (HXlt : X < 2 ^ 53).
  { apply lt_IZR. rewrite HX, mult_IZR.
    rewrite <- (bpow_IZR (53 - k)) by lia.
    pose proof (bpow_pos (53 - k)).
    apply Rmult_lt_reg_r with (bpow (k - 53)); [apply bpow_pos |].
    rewrite Rmult_assoc, <- bpow_add.
    replace (53 - k + (k - 53)) with 0 by lia. rewrite bpow_0. lra. }
  destruct Hcase as [(-> & _) | (_ & -> & ->)]; [lia |].
  unfold pval. rewrite HX, mult_IZR, <- bpow_IZR, Rmult_assoc, <- bpow_add by lia.
  replace (53 - k + (k - 53)) with 0 by lia. rewrite bpow_0. lra.
Qed.

(** ** [binary_round_aux] rounds to nearest, ties to even *)

Lemma shr_m_of_loc (m : Z) (l : location) : shr_m (shr_record_of_loc m l) = m.
Proof. by destruct l as [|[]]. Qed.

Lemma fexp_normal (k : Z) : -1074 <= k - 53 -> fexp prec emax k = k - 53.
Proof. unfold fexp, emin, prec, emax. lia. Qed.

Lemma digits_binade (p : positive) (x : R) :
  (IZR (Z.pos p) <= x < IZR (Z.pos p) + 1)%R ->
  (bpow (Z.pos (digits2_pos p) - 1) <= x < bpow (Z.pos (digits2_pos p)))%R.
Proof.
  intros [Hlo Hhi]. pose proof (digits2_pos_bounds p) as [Hlo' Hhi'].
  rewrite !bpow_IZR by lia.
  apply IZR_le in Hlo'.
  assert (Z.pos p + 1 <= 2 ^ Z.pos (digits2_pos p)) as Hhi''%IZR_le by lia.
  rewrite plus_IZR in Hhi''. lra.
Qed.

(** After rounding, a mantissa of 53 bits stays, and the mantissa [2^53]
    moves to the next binade. *)
Lemma shr_fexp_normalized (p : positive) (e : Z) :
  2 ^ 52 <= Z.pos p < 2 ^ 53 -> -1074 <= e ->
  shr_fexp prec emax (Z.pos p) e loc_Exact
  = ({| shr_m := Z.pos p; shr_r := false; shr_s := false |}, e).
Proof.
  intros Hp He. unfold shr_fexp. cbn [Zdigits2].
  rewrite (digits2_pos_unique p 53) by (change (53 - 1) with 52; lia).
  rewrite fexp_normal by lia.
  replace (53 + e - 53 - e) with 0 by lia. reflexivity.
Qed.

Lemma shr_fexp_carry (e : Z) :
  -1074 <= e ->
  shr_fexp prec emax (2 ^ 53) e loc_Exact
  = ({| shr_m := 2 ^ 52; shr_r := false; shr_s := false |}, e + 1).
Proof.
  intros He. unfold shr_fexp. change (Zdigits2 (2 ^ 53)) with 54.
  rewrite fexp_normal by lia.
  replace (54 + e - 53 - e) with 1 by lia. reflexivity.
Qed.

Lemma binary_round_aux_RNrel (p : positive) (e : Z) (l : location) (x : R) :
  Repr x (shr_record_of_loc (Z.pos p) l) ->
  53 <= Z.pos (digits2_pos p) ->
  -1074 <= Z.pos (digits2_pos p) + e - 53 ->
  Z.pos (digits2_pos p) + e <= 1023 ->
  exists (M : positive) (E : Z),
    RNrel (x * bpow e) (Z.pos M) E /\
    forall s, binary_round_aux prec emax s (Z.pos p) e l = S754_finite s M E.
Proof.
  set (d := Z.pos (digits2_pos p)). intros Hrepr Hd Hlo Hhi.
  assert (Hfloor : (IZR (Z.pos p) <= x < IZR (Z.pos p) + 1)%R).
  { destruct Hrepr as [H _]. by rewrite shr_m_of_loc in H. }
  assert (Hx : (0 <= x)%R).
  { assert (0 < IZR (Z.pos p))%R by (apply IZR_lt; lia). lra. }
  pose proof (digits_binade p x Hfloor) as Hbin. fold d in Hbin.
  destruct (shr_Repr x _ e (d - 53) ltac:(lia) Hx Hrepr) as [Hrepr' He'].
  assert (Hs1 : shr_fexp prec emax (Z.pos p) e l
                = shr (shr_record_of_loc (Z.pos p) l) e (d - 53)).
  { unfold shr_fexp. cbn [Zdigits2]. fold d. rewrite fexp_normal by lia.
    f_equal. lia. }
  unfold binary_round_aux. rewrite Hs1. clear Hs1.
  destruct (shr (shr_record_of_loc (Z.pos p) l) e (d - 53)) as [mrs' e'].
  cbn [fst snd] in Hrepr', He'. subst e'.
  apply round_nearest_even_Repr in Hrepr'.
  set (X := round_nearest_even (shr_m mrs') (loc_of_shr_record mrs')) in *.
  assert (Hv : (bpow (d + e - 1) <= x * bpow e < bpow (d + e))%R).
  { replace (d + e - 1) with (d - 1 + e) by lia. rewrite !bpow_add.
    pose proof (bpow_pos e). split.
    - apply Rmult_le_compat_r; lra.
    - apply Rmult_lt_compat_r; lra. }
  assert (HX : IsRNE (x * bpow e * bpow (53 - (d + e))) X).
  { rewrite Rmult_assoc, <- bpow_add.
    by replace (e + (53 - (d + e))) with (- (d - 53)) by lia. }
  pose proof (binade_rounded _ _ _ Hv HX) as [HXlo HXhi].
  destruct (Z.eq_dec X (2 ^ 53)) as [HX53 | HXne].
  - exists (2 ^ 52)%positive, (d + e - 52). split.
    + exists (d + e), X. conjuncts; try apply Hv; [done |]. left. lia.
    + intros s. rewrite HX53, shr_fexp_carry by lia. cbn [shr_m].
      replace (e + (d - 53) + 1) with (d + e - 52) by lia.
      replace (d + e - 52 <=? emax - prec) with true; [done |].
      symmetry. apply Z.leb_le. unfold emax, prec. lia.
  - destruct X as [|pX|pX] eqn:HeqX; [lia | | lia].
    exists pX, (d + e - 53). split.
    + exists (d + e), (Z.pos pX). conjuncts; try apply Hv; [done |]. right. lia.
    + intros s. rewrite shr_fexp_normalized by lia. cbn [shr_m].
      replace (e + (d - 53)) with (d + e - 53) by lia.
      replace (d + e - 53 <=? emax - prec) with true; [done |].
      symmetry. apply Z.leb_le. unfold emax, prec. lia.
Qed.

(** ** [binary_round]: rounding an exact product [m * 2^e] *)

Lemma Repr_exact (m : Z) :
  Repr (IZR m) (shr_record_of_loc m loc_Exact).
Proof.
  unfold Repr. cbn. conjuncts; lra.
Qed.

Lemma shift_pos_value (m d : positive) :
  Z.pos (Pos.iter xO m d) = Z.pos m * 2 ^ Z.pos d.
Proof.
  change (Pos.iter xO m d) with (shift_pos d m).
  rewrite shift_pos_correct. change (2 ^ Z.pos d) with (Z.pow_pos 2 d). lia.
Qed.

(** Aligning a mantissa to a smaller exponent keeps the value. *)
Lemma shl_align_value (m : positive) (e e' : Z) :
  e' <= e ->
  (IZR (Z.pos (fst (shl_align m e e'))) * bpow e' = IZR (Z.pos m) * bpow e)%R.
Proof.
  intros He. unfold shl_align.
  destruct (e' - e) as [|d|d] eqn:Hd; cbn [fst]; [| lia |].
  - by replace e' with e by lia.
  - rewrite shift_pos_value, mult_IZR, <- bpow_IZR, Rmult_assoc, <- bpow_add
      by lia.
    by replace (Z.pos d + e') with e by lia.
Qed.

(** [binary_round] first gives the mantissa 53 bits at least. *)
Lemma shl_align_fexp (m : positive) (e : Z) :
  let d := Z.pos (digits2_pos m) in
  let mz := fst (shl_align m e (d + e - 53)) in
  let ez := snd (shl_align m e (d + e - 53)) in
  53 <= Z.pos (digits2_pos mz) /\
  Z.pos (digits2_pos mz) + ez = Z.max d 53 + e - (Z.max d 53 - d) /\
  (IZR (Z.pos mz) * bpow ez = IZR (Z.pos m) * bpow e)%R.
Proof.
  intros d mz ez. subst mz ez. unfold shl_align.
  destruct (d + e - 53 - e) as [|k|k] eqn:Hk; cbn [fst snd]; fold d.
  - conjuncts; [lia | lia | done].
  - conjuncts; [lia | lia | done].
  - pose proof (digits2_pos_bounds m) as [Hlo Hhi]. fold d in Hlo, Hhi.
    assert (Hdig : Z.pos (digits2_pos (Pos.iter xO m k)) = 53).
    { apply digits2_pos_unique. rewrite shift_pos_value.
      replace (Z.pos k) with (53 - d) by lia.
      assert (H52 : 2 ^ (53 - 1) = 2 ^ (d - 1) * 2 ^ (53 - d)).
      { rewrite <- Z.pow_add_r by lia. f_equal. lia. }
      assert (H53 : 2 ^ 53 = 2 ^ d * 2 ^ (53 - d)).
      { rewrite <- Z.pow_add_r by lia. f_equal. lia. }
      rewrite H52, H53.
      assert (0 < 2 ^ (53 - d)) by (apply Z.pow_pos_nonneg; lia).
      split; [apply Z.mul_le_mono_nonneg_r; lia
             | apply Z.mul_lt_mono_pos_r; lia]. }
    rewrite Hdig. conjuncts; [lia | lia |].
    rewrite shift_pos_value, mult_IZR, <- bpow_IZR, Rmult_assoc, <- bpow_add
      by lia.
    by replace (Z.pos k + (d + e - 53)) with e by lia.
Qed.

Lemma value_binade (p : positive) (e : Z) :
  (bpow (-1000) <= IZR (Z.pos p) * bpow e < bpow 1000)%R ->
  -1000 < Z.pos (digits2_pos p) + e <= 1000.
Proof.
  intros [Hlo Hhi]. set (d := Z.pos (digits2_pos p)).
  pose proof (digits2_pos_bounds p) as [Hlo' Hhi']. fold d in Hlo', Hhi'.
  apply IZR_le in Hlo'. apply IZR_lt in Hhi'.
  rewrite <- bpow_IZR in Hlo', Hhi' by lia.
  pose proof (bpow_pos e).
  assert (bpow (d - 1 + e) <= IZR (Z.pos p) * bpow e)%R.
  { rewrite bpow_add. apply Rmult_le_compat_r; lra. }
  assert (IZR (Z.pos p) * bpow e < bpow (d + e))%R.
  { rewrite bpow_add. apply Rmult_lt_compat_r; lra. }
  assert (-1000 < d + e) by (apply bpow_lt_inv; lra).
  assert (d - 1 + e < 1000) by (apply bpow_lt_inv; lra).
  lia.
Qed.

Lemma binary_round_RNrel (m : positive) (e : Z) :
  (bpow (-1000) <= IZR (Z.pos m) * bpow e < bpow 1000)%R ->
  exists (M : positive) (E : Z),
    RNrel (IZR (Z.pos m) * bpow e) (Z.pos M) E /\
    forall s, binary_round prec emax s m e = S754_finite s M E.
Proof.
  intros Hv. pose proof (value_binade m e Hv) as Hk.
  pose proof (shl_align_fexp m e) as H. cbv zeta in H.
  unfold binary_round. rewrite fexp_normal by lia.
  destruct (shl_align m e (Z.pos (digits2_pos m) + e - 53)) as [mz ez].
  cbn [fst snd] in H. destruct H as (Hd & Hsum & Hval).
  destruct (binary_round_aux_RNrel mz ez loc_Exact (IZR (Z.pos mz)))
    as (M & E & HRN & Hres); [apply Repr_exact | done | lia | lia |].
  exists M, E. by rewrite <- Hval.
Qed.

(** ** Addition of two values of the same sign *)

Lemma SFadd_RNrel (mx my : positive) (ex ey : Z) :
  (bpow (-1000) <= pval (Z.pos mx) ex + pval (Z.pos my) ey < bpow 1000)%R ->
  exists (M : positive) (E : Z),
    RNrel (pval (Z.pos mx) ex + pval (Z.pos my) ey) (Z.pos M) E /\
    forall s,
      SFadd prec emax (S754_finite s mx ex) (S754_finite s my ey)
      = S754_finite s M E.
Proof.
  intros Hv. cbn [SFadd].
  set (ez := Z.min ex ey).
  pose proof (shl_align_value mx ex ez ltac:(lia)) as Hx.
  pose proof (shl_align_value my ey ez ltac:(lia)) as Hy.
  set (ax := fst (shl_align mx ex ez)) in *.
  set (ay := fst (shl_align my ey ez)) in *.
  assert (Hsum : (IZR (Z.pos (ax + ay)) * bpow ez
                  = pval (Z.pos mx) ex + pval (Z.pos my) ey)%R).
  { unfold pval. rewrite <- Hx, <- Hy, Pos2Z.inj_add, plus_IZR. lra. }
  destruct (binary_round_RNrel (ax + ay) ez) as (M & E & HRN & Hres);
    [by rewrite Hsum |].
  exists M, E. rewrite <- Hsum. split; [done |].
  intros s. destruct s; cbn [cond_Zopp Z.opp Z.add binary_normalize]; apply Hres.
Qed.

(** ** Division *)

Lemma Repr_of_fraction (q : Z) (f : R) (r s : bool) :
  (0 <= f < 1)%R ->
  (r = true <-> (/ 2 <= f)%R) ->
  (s = true <-> f <> 0%R /\ f <> (/ 2)%R) ->
  Repr (IZR q + f) {| shr_m := q; shr_r := r; shr_s := s |}.
Proof.
  intros Hf Hr Hs. unfold Repr. cbn [shr_m shr_r shr_s]. conjuncts; try lra.
  - rewrite Hr. split; intros; lra.
  - rewrite Hs. split; intros [H1 H2]; split; intros Heq; [apply H1 | apply H2 | apply H1 | apply H2]; lra.
Qed.

Ltac bit_iff :=
  split;
  [ let Hb := fresh in
    intros Hb; try discriminate Hb;
    first [nra | split; intros ?; nra]
  | let HP := fresh in
    intros HP; try reflexivity; exfalso;
    first [nra
          | let H1 := fresh in let H2 := fresh in
            destruct HP as [H1 H2];
            first [apply H1; nra | apply H2; nra]] ].

(** The location [SFdiv_core_binary] computes from the remainder describes
    the fraction of the quotient. *)
Lemma new_location_Repr (N D q r : Z) :
  0 < D -> 0 <= N -> Z.div_eucl N D = (q, r) ->
  Repr (IZR N / IZR D) (shr_record_of_loc q (new_location D r)).
Proof.
  intros HD HN Hdiv.
  assert (Hq : q = N / D) by (unfold Z.div; by rewrite Hdiv).
  assert (Hr : r = N mod D) by (unfold Z.modulo; by rewrite Hdiv).
  pose proof (Z.div_mod N D ltac:(lia)) as Heq. rewrite <- Hq, <- Hr in Heq.
  pose proof (Z.mod_pos_bound N D HD) as Hbound. rewrite <- Hr in Hbound.
  clear Hdiv Hq Hr.
  assert (HDr : (0 < IZR D)%R) by (apply IZR_lt; lia).
  set (f := (IZR r / IZR D)%R).
  assert (HfD : (f * IZR D = IZR r)%R) by (unfold f; field; lra).
  assert (Hx : (IZR N / IZR D = IZR q + f)%R).
  { unfold f. rewrite Heq, plus_IZR, mult_IZR. field. lra. }
  rewrite Hx. clear Hx Heq.
  assert (Hr0 : (0 <= IZR r)%R) by (apply IZR_le; lia).
  assert (HrD : (IZR r < IZR D)%R) by (apply IZR_lt; lia).
  assert (Hf : (0 <= f < 1)%R) by (split; nra).
  unfold new_location, new_location_even, new_location_odd. cbv beta.
  destruct (Z.eqb_spec r 0) as [-> | Hne].
  { assert (f = 0%R) as -> by nra.
    destruct (Z.even D); cbn [shr_record_of_loc];
      apply Repr_of_fraction; try lra; bit_iff. }
  assert (Hrpos : (0 < IZR r)%R) by (apply IZR_lt; lia).
  assert (Hfpos : (0 < f)%R) by nra.
  assert (Hneb : (r =? 0) = false) by (by apply Z.eqb_neq).
  destruct (Z.even D) eqn:Heven; rewrite Hneb.
  - destruct (Z.compare_spec (2 * r) D) as [H | H | H]; cbn [shr_record_of_loc];
      [apply (f_equal IZR) in H | apply IZR_lt in H | apply IZR_lt in H];
      rewrite mult_IZR in H; apply Repr_of_fraction; try done; bit_iff.
  - assert (Hodd : 2 * r <> D).
    { intros <-. rewrite Z.even_mul in Heven. done. }
    destruct (Z.compare_spec (2 * r + 1) D) as [H | H | H];
      cbn [shr_record_of_loc];
      [assert (2 * r < D) as H'%IZR_lt by lia
      |assert (2 * r < D) as H'%IZR_lt by lia
      |assert (D < 2 * r) as H'%IZR_lt by lia];
      rewrite mult_IZR in H'; apply Repr_of_fraction; try done; bit_iff.
Qed.

Lemma SFdiv_core_binary_normal (mx my : positive) (ex ey : Z) :
  2 ^ 52 <= Z.pos mx < 2 ^ 53 -> 2 ^ 52 <= Z.pos my < 2 ^ 53 ->
  -1000 <= ex - ey ->
  SFdiv_core_binary prec emax (Z.pos mx) ex (Z.pos my) ey
  = (fst (Z.div_eucl (Z.pos mx * 2 ^ 53) (Z.pos my)), ex - ey - 53,
     new_location (Z.pos my)
       (snd (Z.div_eucl (Z.pos mx * 2 ^ 53) (Z.pos my)))).
Proof.
  intros Hx Hy He. unfold SFdiv_core_binary. cbv zeta. cbn [Zdigits2].
  rewrite (digits2_pos_unique mx 53), (digits2_pos_unique my 53)
    by (change (53 - 1) with 52; lia).
  rewrite fexp_normal by lia.
  replace (Z.min (53 + ex - (53 + ey) - 53) (ex - ey)) with (ex - ey - 53)
    by lia.
  replace (ex - ey - (ex - ey - 53)) with 53 by lia.
  cbv iota. rewrite Z.shiftl_mul_pow2 by lia.
  by destruct (Z.div_eucl (Z.pos mx * 2 ^ 53) (Z.pos my)).
Qed.

Lemma SFdiv_RNrel (mx my : positive) (ex ey : Z) :
  2 ^ 52 <= Z.pos mx < 2 ^ 53 -> 2 ^ 52 <= Z.pos my < 2 ^ 53 ->
  -1000 <= ex - ey <= 900 ->
  exists (M : positive) (E : Z),
    RNrel (pval (Z.pos mx) ex / pval (Z.pos my) ey) (Z.pos M) E /\
    forall sx sy,
      SFdiv prec emax (S754_finite sx mx ex) (S754_finite sy my ey)
      = S754_finite (xorb sx sy) M E.
Proof.
  intros Hx Hy He. cbn [SFdiv].
  rewrite SFdiv_core_binary_normal by (done || lia).
  set (N := Z.pos mx * 2 ^ 53). set (D := Z.pos my).
  destruct (Z.div_eucl N D) as [q r] eqn:Hdiv. cbn [fst snd].
  assert (Hq : q = N / D) by (unfold Z.div; by rewrite Hdiv).
  assert (Hqlo : 2 ^ 52 <= q).
  { rewrite Hq. apply Z.div_le_lower_bound; [lia |]. unfold N, D. lia. }
  assert (Hqhi : q < 2 ^ 54).
  { rewrite Hq. apply Z.div_lt_upper_bound; [lia |]. unfold N, D. lia. }
  destruct q as [|pq|pq]; [lia | | lia].
  pose proof (digits2_pos_bounds pq) as [Hdlo Hdhi].
  assert (Hd : 53 <= Z.pos (digits2_pos pq) <= 54).
  { split.
    - destruct (Z.lt_ge_cases (Z.pos (digits2_pos pq)) 53) as [Hlt|]; [| done].
      assert (2 ^ Z.pos (digits2_pos pq) <= 2 ^ 52)
        by (apply Z.pow_le_mono_r; lia). lia.
    - destruct (Z.lt_ge_cases 54 (Z.pos (digits2_pos pq))) as [Hlt|]; [| lia].
      assert (2 ^ 54 <= 2 ^ (Z.pos (digits2_pos pq) - 1))
        by (apply Z.pow_le_mono_r; lia). lia. }
  destruct (binary_round_aux_RNrel pq (ex - ey - 53)
              (new_location D r) (IZR N / IZR D))
    as (M & E & HRN & Hres); [| lia | lia | lia |].
  { apply new_location_Repr; [unfold D; lia | unfold N; lia | done]. }
  assert (Hval : (IZR N / IZR D * bpow (ex - ey - 53)
                  = pval (Z.pos mx) ex / pval (Z.pos my) ey)%R).
  { unfold pval, N, D. rewrite mult_IZR, <- (bpow_IZR 53) by lia.
    assert (Hb : bpow ex = (bpow (ex - ey - 53) * bpow 53 * bpow ey)%R).
    { rewrite <- !bpow_add. f_equal. lia. }
    rewrite Hb.
    pose proof (bpow_pos ey). pose proof (bpow_pos 53).
    assert (0 < IZR (Z.pos my))%R by (apply IZR_lt; lia).
    field. split; lra. }
  rewrite Hval in HRN. exists M, E. split; [exact HRN |].
  intros sx sy. apply Hres.
Qed.

(** ** [float64(z)] for an integer below [2^53] *)

Lemma pval_binade (M E : Z) :
  2 ^ 52 <= M < 2 ^ 53 ->
  (bpow (E + 52) <= pval M E < bpow (E + 53))%R.
Proof.
  intros [Hlo Hhi]. unfold pval. pose proof (bpow_pos E).
  rewrite (Z.add_comm E 52), (Z.add_comm E 53), !bpow_add.
  rewrite (bpow_IZR 52), (bpow_IZR 53) by lia.
  apply IZR_le in Hlo. apply IZR_lt in Hhi. split.
  - apply Rmult_le_compat_r; lra.
  - apply Rmult_lt_compat_r; lra.
Qed.

Lemma float64_of_int_RNrel (z : Z) :
  0 < z < 2 ^ 53 ->
  exists (M : positive) (E : Z),
    pval (Z.pos M) E = IZR z /\
    2 ^ 52 <= Z.pos M < 2 ^ 53 /\
    -53 < E <= 0 /\
    Prim2SF (float64_of_int z) = S754_finite false M E /\
    Prim2SF (float64_of_int (- z)) = S754_finite true M E.
Proof.
  intros Hz.
  assert (Hconv : Prim2SF (of_uint63 (of_Z z))
                  = binary_round prec emax false (Z.to_pos z) 0).
  { rewrite of_uint63_spec, of_Z_spec, Z.mod_small
      by (change wB with (2 ^ 63); lia).
    destruct z; [lia | done | lia]. }
  destruct (binary_round_RNrel (Z.to_pos z) 0) as (M & E & HRN & Hres).
  { rewrite Z2Pos.id, bpow_0, Rmult_1_r by lia.
    assert (1 <= z) as H1%IZR_le by lia. destruct Hz as [_ H2%IZR_lt].
    rewrite <- (bpow_IZR 53) in H2 by lia.
    pose proof (bpow_le (-1000) 0 ltac:(lia)) as H3. rewrite bpow_0 in H3.
    pose proof (bpow_le 53 1000 ltac:(lia)). lra. }
  rewrite Z2Pos.id, bpow_0, Rmult_1_r in HRN by lia.
  pose proof (RNrel_canonical _ _ _ HRN) as Hcan.
  pose proof (RNrel_int _ _ _ Hz HRN) as Hval.
  exists M, E. conjuncts; try done; try lia.
  - pose proof (pval_binade _ E Hcan) as [_ Hhi]. rewrite Hval in Hhi.
    assert (1 <= z) as H1%IZR_le by lia. rewrite <- bpow_0 in H1.
    assert (0 < E + 53) by (apply bpow_lt_inv; lra). lia.
  - pose proof (pval_binade _ E Hcan) as [Hlo _]. rewrite Hval in Hlo.
    destruct Hz as [_ H2%IZR_lt]. rewrite <- (bpow_IZR 53) in H2 by lia.
    assert (E + 52 < 53) by (apply bpow_lt_inv; lra). lia.
  - unfold float64_of_int.
    replace (Z.abs z <? 2 ^ 63) with true by (symmetry; apply Z.ltb_lt; lia).
    replace (z <? 0) with false by (symmetry; apply Z.ltb_ge; lia).
    by rewrite Hconv, Hres.
  - unfold float64_of_int.
    replace (Z.abs (- z) <? 2 ^ 63) with true
      by (symmetry; apply Z.ltb_lt; lia).
    replace (- z <? 0) with true by (symmetry; apply Z.ltb_lt; lia).
    rewrite Z.opp_involutive, FloatAxioms.opp_spec, Hconv, Hres. done.
Qed.

(** ** The fraction of a second *)

Lemma Prim2SF_1e9 : Prim2SF 1e9 = S754_finite false 8388608000000000 (-23).
Proof. vm_compute. reflexivity. Qed.

Lemma pval_1e9 : pval 8388608000000000 (-23) = 1000000000%R.
Proof.
  unfold pval. pose proof (bpow_opp 23) as H.
  rewrite (bpow_IZR 23) in H by lia. change (2 ^ 23) with 8388608 in H.
  change (- (23)) with (-23) in H. nra.
Qed.

Lemma secondFraction_RNrel (r : Z) :
  0 < r < 2 ^ 53 ->
  exists (M : positive) (E : Z),
    RNrel (IZR r / 1000000000) (Z.pos M) E /\
    secondFraction r = pval (Z.pos M) E /\
    Prim2SF (float64_of_int r / 1e9) = S754_finite false M E /\
    Prim2SF (float64_of_int (- r) / 1e9) = S754_finite true M E.
Proof.
  intros Hr.
  destruct (float64_of_int_RNrel r Hr) as (Mr & Er & Hval & Hcan & HE & Hpos & Hneg).
  destruct (SFdiv_RNrel Mr 8388608000000000 Er (-23))
    as (M & E & HRN & Hdiv); [done | lia | lia |].
  rewrite Hval, pval_1e9 in HRN.
  exists M, E. unfold secondFraction.
  rewrite !FloatAxioms.div_spec, Hpos, Hneg, Prim2SF_1e9.
  unfold SF64div. rewrite !Hdiv. done.
Qed.

Lemma secondFraction_0 : secondFraction 0 = 0%R.
Proof.
  unfold secondFraction.
  assert (Prim2SF (float64_of_int 0 / 1e9) = S754_zero false) as ->
    by (vm_compute; reflexivity).
  reflexivity.
Qed.

Lemma pval_one : pval (2 ^ 52) (-52) = 1%R.
Proof.
  unfold pval. rewrite <- (bpow_IZR 52) by lia. apply bpow_opp.
Qed.

Lemma secondFraction_mono (r1 r2 : Z) :
  0 <= r1 <= r2 -> r2 < 1000000000 -> (secondFraction r1 <= secondFraction r2)%R.
Proof.
  intros [H1 H12] H2.
  destruct (Z.eq_dec r2 0) as [-> | Hne2].
  { replace r1 with 0 by lia. lra. }
  destruct (secondFraction_RNrel r2 ltac:(lia)) as (M2 & E2 & HRN2 & -> & _).
  pose proof (RNrel_canonical _ _ _ HRN2) as Hc2.
  destruct (Z.eq_dec r1 0) as [-> | Hne1].
  { rewrite secondFraction_0. unfold pval. pose proof (bpow_pos E2).
    assert (0 < IZR (Z.pos M2))%R by (apply IZR_lt; lia). nra. }
  destruct (secondFraction_RNrel r1 ltac:(lia)) as (M1 & E1 & HRN1 & -> & _).
  pose proof (RNrel_canonical _ _ _ HRN1) as Hc1.
  apply ple_pval; [done | done |].
  apply (RNrel_mono (IZR r1 / 1000000000) (IZR r2 / 1000000000));
    [| done | done].
  apply IZR_le in H12. lra.
Qed.

Lemma secondFraction_bounds (r : Z) :
  0 <= r < 1000000000 -> (0 <= secondFraction r <= 1)%R.
Proof.
  intros [H0 H1]. split.
  - rewrite <- secondFraction_0. apply secondFraction_mono; lia.
  - destruct (Z.eq_dec r 0) as [-> | Hne]; [rewrite secondFraction_0; lra |].
    destruct (secondFraction_RNrel r ltac:(lia)) as (M & E & HRN & -> & _).
    pose proof (RNrel_canonical _ _ _ HRN) as Hc.
    rewrite <- pval_one. apply ple_pval; [done | lia |].
    apply (RNrel_mono (IZR r / 1000000000) (pval (2 ^ 52) (-52)));
      [| done | apply RNrel_exact; lia].
    rewrite pval_one. apply IZR_lt in H1. lra.
Qed.

(** ** [Duration.Seconds] *)

Lemma secondsBeforeRounding_mono (a1 a2 : Z) :
  0 <= a1 <= a2 ->
  (secondsBeforeRounding a1 <= secondsBeforeRounding a2)%R.
Proof.
  intros [H1 H12]. unfold secondsBeforeRounding, Second.
  pose proof (Z.div_mod a1 1000000000 ltac:(lia)) as Ha1.
  pose proof (Z.div_mod a2 1000000000 ltac:(lia)) as Ha2.
  pose proof (Z.mod_pos_bound a1 1000000000 ltac:(lia)) as Hr1.
  pose proof (Z.mod_pos_bound a2 1000000000 ltac:(lia)) as Hr2.
  pose proof (secondFraction_bounds _ Hr1). pose proof (secondFraction_bounds _ Hr2).
  destruct (Z.eq_dec (a1 / 1000000000) (a2 / 1000000000)) as [Heq | Hne].
  - rewrite Heq. pose proof (secondFraction_mono (a1 mod 1000000000)
                               (a2 mod 1000000000) ltac:(lia) ltac:(lia)).
    lra.
  - assert (a1 / 1000000000 + 1 <= a2 / 1000000000) as Hq%IZR_le by lia.
    rewrite plus_IZR in Hq. lra.
Qed.

Lemma Seconds_RNrel (a : Z) :
  0 < a <= 2 ^ 63 ->
  exists (M : positive) (E : Z),
    RNrel (secondsBeforeRounding a) (Z.pos M) E /\
    Prim2SF (Seconds a) = S754_finite false M E /\
    Prim2SF (Seconds (- a)) = S754_finite true M E.
Proof.
  intros Ha. unfold Seconds, secondsBeforeRounding.
  rewrite Z.quot_opp_l, Z.rem_opp_l by done.
  rewrite Z.quot_div_nonneg, Z.rem_mod_nonneg by (unfold Second; lia).
  pose proof (Z.div_mod a Second ltac:(done)) as Heq.
  pose proof (Z.mod_pos_bound a Second ltac:(done)) as Hr.
  assert (Hq : 0 <= a / Second < 2 ^ 34).
  { split; [apply Z.div_pos; unfold Second; lia |].
    apply Z.div_lt_upper_bound; unfold Second; lia. }
  set (q := a / Second) in *. set (r := a mod Second) in *.
  unfold Second in Hr.
  rewrite !FloatAxioms.add_spec. unfold SF64add.
  assert (H0 : Prim2SF (float64_of_int 0) = S754_zero false)
    by (vm_compute; reflexivity).
  assert (H0d : Prim2SF (float64_of_int 0 / 1e9) = S754_zero false)
    by (vm_compute; reflexivity).
  destruct (Z.eq_dec r 0) as [Hr0 | Hr0]; [rewrite Hr0 in * |];
    (destruct (Z.eq_dec q 0) as [Hq0 | Hq0]; [rewrite Hq0 in * |]).
  - unfold Second in Heq. lia.
  - destruct (float64_of_int_RNrel q ltac:(lia))
      as (M & E & Hval & Hcan & _ & Hpos & Hneg).
    exists M, E. rewrite secondFraction_0, Rplus_0_r, <- Hval.
    change (- 0) with 0. rewrite H0d, Hpos, Hneg.
    split; [by apply RNrel_exact | done].
  - destruct (secondFraction_RNrel r ltac:(lia)) as (M & E & HRN & Hfr & Hpos & Hneg).
    exists M, E. rewrite Rplus_0_l, Hfr.
    change (- 0) with 0. rewrite H0, Hpos, Hneg.
    split; [apply RNrel_exact; by apply RNrel_canonical in HRN | done].
  - destruct (float64_of_int_RNrel q ltac:(lia))
      as (Mq & Eq & Hvalq & Hcanq & HEq & Hposq & Hnegq).
    destruct (secondFraction_RNrel r ltac:(lia))
      as (Mr & Er & HRNr & Hfr & Hposr & Hnegr).
    pose proof (secondFraction_bounds r ltac:(lia)) as Hfb.
    destruct (SFadd_RNrel Mq Mr Eq Er) as (M & E & HRN & Hadd).
    { rewrite Hvalq, <- Hfr.
      assert (1 <= q) as H1%IZR_le by lia.
      destruct Hq as [_ H2%IZR_lt]. rewrite <- (bpow_IZR 34) in H2 by lia.
      pose proof (bpow_le (-1000) 0 ltac:(lia)) as H3. rewrite bpow_0 in H3.
      pose proof (bpow_lt 35 1000 ltac:(lia)) as H4.
      replace 35 with (34 + 1) in H4 by lia.
      rewrite bpow_add, bpow_1 in H4.
      pose proof (bpow_le 0 34 ltac:(lia)) as H5. rewrite bpow_0 in H5.
      lra. }
    exists M, E. rewrite Hvalq, <- Hfr in HRN.
    rewrite Hposq, Hnegq, Hposr, Hnegr, !Hadd. done.
Qed.

(** [Seconds] is monotone over the whole range of [Duration]. *)
Lemma Seconds_mono (d1 d2 : Duration) :
  - 2 ^ 63 <= d1 -> d1 <= d2 -> d2 < 2 ^ 63 ->
  PrimFloat.leb (Seconds d1) (Seconds d2) = true.
Proof.
  intros Hlo Hle Hhi. rewrite FloatAxioms.leb_spec.
  assert (H0 : Prim2SF (Seconds 0) = S754_zero false)
    by (vm_compute; reflexivity).
  destruct (Z.lt_trichotomy d1 0) as [Hd1 | [-> | Hd1]];
    destruct (Z.lt_trichotomy d2 0) as [Hd2 | [-> | Hd2]]; try lia.
  - destruct (Seconds_RNrel (- d1) ltac:(lia)) as (M1 & E1 & HRN1 & _ & Hs1).
    destruct (Seconds_RNrel (- d2) ltac:(lia)) as (M2 & E2 & HRN2 & _ & Hs2).
    rewrite Z.opp_involutive in Hs1, Hs2. rewrite Hs1, Hs2.
    apply ple_SFleb_neg.
    apply (RNrel_mono (secondsBeforeRounding (- d2))
             (secondsBeforeRounding (- d1))); [| done | done].
    apply secondsBeforeRounding_mono. lia.
  - destruct (Seconds_RNrel (- d1) ltac:(lia)) as (M1 & E1 & _ & _ & Hs1).
    rewrite Z.opp_involutive in Hs1. by rewrite Hs1, H0.
  - destruct (Seconds_RNrel (- d1) ltac:(lia)) as (M1 & E1 & _ & _ & Hs1).
    destruct (Seconds_RNrel d2 ltac:(lia)) as (M2 & E2 & _ & Hs2 & _).
    rewrite Z.opp_involutive in Hs1. by rewrite Hs1, Hs2.
  - by rewrite H0.
  - destruct (Seconds_RNrel d2 ltac:(lia)) as (M2 & E2 & _ & Hs2 & _).
    by rewrite Hs2, H0.
  - destruct (Seconds_RNrel d1 ltac:(lia)) as (M1 & E1 & HRN1 & Hs1 & _).
    destruct (Seconds_RNrel d2 ltac:(lia)) as (M2 & E2 & HRN2 & Hs2 & _).
    rewrite Hs1, Hs2. apply ple_SFleb.
    apply (RNrel_mono (secondsBeforeRounding d1) (secondsBeforeRounding d2));
      [| done | done].
    apply secondsBeforeRounding_mono. lia.
Qed.

(** ** The range test and the order of instants *)

Section WindowOrder.
Variable clock : nat -> Time.

(** At one reading of the clock, an instant at least as recent as one in
    range is in range. *)
Lemma inRange_more_recent (h : float64) (i : nat) (ts ts' : Time) :
  ts <= ts' -> inRange clock h i ts = true -> inRange clock h i ts' = true.
Proof.
  unfold inRange, Since. intros Hle Hin.
  apply (leb_ltb_trans _ (Seconds (Sub (clock i) ts))); [| done].
  apply Seconds_mono; unfold Sub, minDuration, maxDuration; lia.
Qed.

(** An instant in range at one reading of the clock was in range at every
    reading that was not later. *)
Lemma inRange_earlier (h : float64) (i j : nat) (ts : Time) :
  clock i <= clock j ->
  inRange clock h j ts = true -> inRange clock h i ts = true.
Proof.
  unfold inRange, Since. intros Hle Hin.
  apply (leb_ltb_trans _ (Seconds (Sub (clock j) ts))); [| done].
  apply Seconds_mono; unfold Sub, minDuration, maxDuration; lia.
Qed.

End WindowOrder.

(** ** The observation window: claims *)

Section WindowClaims.
Context `{TP : TimePkg}.
Variable clock : nat -> Time.

(** C7. The eviction step of [removeOldUtils] is the spec's eviction at the
    horizon [RetentionHorizon podInitTime], which is
    [min(podInitTime * 20, 600)] computed from the argument of the call:
    nothing of it is kept between calls. For a boot latency of 5 seconds the
    horizon is 100 seconds, for 40 seconds it is capped at 600, and an
    observation aged 150 seconds is evicted in the first case and kept in
    the second. *)
Theorem removeOldUtils_uses_RetentionHorizon (n : nat) (prev : observations)
    (podInitTime : float64) :
  removeOldUtils clock n prev podInitTime =
  evictOlderThan clock (RetentionHorizon podInitTime) prev zeroTime n /\
  RetentionHorizon podInitTime = math_Min (podInitTime * 20)%float 600%float /\
  RetentionHorizon 5%float = 100%float /\
  RetentionHorizon 40%float = 600%float /\
  removeOldUtils (TP := goTime) Examples.frozen 0 [[(Examples.aged 150, 1)]] 5
  = [] /\
  removeOldUtils (TP := goTime) Examples.frozen 0 [[(Examples.aged 150, 1)]] 40
  = [[(Examples.aged 150, 1)]].
Proof.
  conjuncts; [apply removeOldUtils_evict | reflexivity | ..];
    vm_compute; reflexivity.
Qed.

(** C2, as amended. A timestamp of the window that fails to parse is not
    reported: the call fails only when the current time cannot be written,
    and then returns no window; otherwise it returns, with a nil error, a
    suffix of the window it was given followed by the new record. *)
Theorem updateUtilizationObservations_only_marshal_error (n : nat) (cpu : Z)
    (prev : observations) (podInitTime : float64) :
  (MarshalJSON (clock n) = None /\
   updateUtilizationObservations clock n cpu prev podInitTime
   = ([], Some MarshalTimeError)) \/
  (exists jsonTime evicted survivors,
     MarshalJSON (clock n) = Some jsonTime /\
     prev = evicted ++ survivors /\
     updateUtilizationObservations clock n cpu prev podInitTime
     = (survivors ++ [[(jsonTime, cpu)]], None)).
Proof.
  pose proof (updateUtilizationObservations_shape clock n cpu prev podInitTime)
    as H.
  destruct (MarshalJSON (clock n)) as [js|]; [right | left; done].
  destruct H as (ev & sv & Hprev & Hres). by exists js, ev, sv.
Qed.

(** C10. The new record is appended as an entry of its own, whatever the
    keys of the surviving observations. The window returned is exactly what
    [removeOldUtils] kept, a suffix of the previous window, followed by the
    new record: every survivor keeps its index and its content, the new
    record takes the next index, and the window is one longer than the
    survivors. A survivor that carries the timestamp of the new record is
    therefore still there, at an index of its own, beside the new record. *)
Theorem updateUtilizationObservations_appends_one_record (n : nat) (cpu : Z)
    (prev : observations) (podInitTime : float64) (jsonTime : string) :
  MarshalJSON (clock n) = Some jsonTime ->
  let survivors := removeOldUtils clock (S n) prev podInitTime in
  let result := fst (updateUtilizationObservations clock n cpu prev podInitTime) in
  updateUtilizationObservations clock n cpu prev podInitTime
  = (survivors ++ [[(jsonTime, cpu)]], None) /\
  (exists k : nat, (k <= length prev)%nat /\ survivors = drop k prev) /\
  length result = S (length survivors) /\
  (forall i m, survivors !! i = Some m -> result !! i = Some m) /\
  result !! length survivors = Some [(jsonTime, cpu)] /\
  (forall i v, survivors !! i = Some [(jsonTime, v)] ->
     (i < length survivors)%nat /\
     result !! i = Some [(jsonTime, v)] /\
     result !! length survivors = Some [(jsonTime, cpu)]).
Proof.
  intros Hjs survivors result.
  assert (Hres : updateUtilizationObservations clock n cpu prev podInitTime
                 = (survivors ++ [[(jsonTime, cpu)]], None)).
  { unfold updateUtilizationObservations. by rewrite Hjs. }
  assert (Hlast : (survivors ++ [[(jsonTime, cpu)]]) !! length survivors
                  = Some [(jsonTime, cpu)]).
  { rewrite lookup_app_r by lia. by rewrite Nat.sub_diag. }
  subst result. rewrite Hres. cbn [fst].
  conjuncts; [done | | | | done |].
  - subst survivors. rewrite removeOldUtils_evict.
    destruct (evictOlderThan_suffix clock (RetentionHorizon podInitTime) prev
                zeroTime (S n)) as [ev Hev].
    generalize dependent (evictOlderThan clock (RetentionHorizon podInitTime)
                            prev zeroTime (S n)).
    intros sv ->. exists (length ev). split.
    + rewrite length_app. lia.
    + by rewrite drop_app_length.
  - rewrite length_app. simpl. lia.
  - intros i m Hi. by apply lookup_app_l_Some.
  - intros i v Hi. conjuncts; [| by apply lookup_app_l_Some | done].
    by apply lookup_lt_Some in Hi.
Qed.

(** C4. For a window of one-entry observations whose keys parse to the
    instants [tss], in non-decreasing order, the call returns the window
    without its first [k] observations, followed by the new record. Each of
    the [k] evicted observations failed the range test at the horizon when
    it was scanned. Every survivor passes the range test at the reading of
    the clock at which the scan stopped: no observation older than the
    horizon is left in the window. When the clock does not run backwards,
    the evicted observations fail the test at that same reading, so what is
    evicted is exactly what is older than the horizon then. The survivors
    are at least as recent as the first of them, and from an empty window
    the result has length 1. *)
Theorem updateUtilizationObservations_keeps_suffix (n : nat) (cpu : Z)
    (prev : observations) (tss : list Time) (podInitTime : float64)
    (jsonTime : string) :
  MarshalJSON (clock n) = Some jsonTime ->
  Forall2 (timestamped (TP := TP)) prev tss ->
  Sorted Z.le tss ->
  exists k : nat,
    (k <= length prev)%nat /\
    updateUtilizationObservations clock n cpu prev podInitTime
    = (drop k prev ++ [[(jsonTime, cpu)]], None) /\
    (forall j ts, (j < k)%nat -> tss !! j = Some ts ->
       inRange clock (RetentionHorizon podInitTime) (S n + j) ts = false) /\
    Forall (fun ts =>
              inRange clock (RetentionHorizon podInitTime) (S n + k) ts = true)
      (drop k tss) /\
    ((forall i j, (i <= j)%nat -> clock i <= clock j) ->
     Forall (fun ts =>
               inRange clock (RetentionHorizon podInitTime) (S n + k) ts = false)
       (take k tss)) /\
    (forall ts, tss !! k = Some ts -> Forall (Z.le ts) (drop k tss)) /\
    (prev = [] ->
     length (fst (updateUtilizationObservations clock n cpu prev podInitTime))
     = 1%nat).
Proof.
  intros Hjs Hts Hsorted.
  destruct (evictOlderThan_timestamped clock (RetentionHorizon podInitTime)
              prev tss Hts zeroTime (S n)) as (k & Hk & Hev & Hout & Hfirst).
  assert (Hres : updateUtilizationObservations clock n cpu prev podInitTime
                 = (drop k prev ++ [[(jsonTime, cpu)]], None)).
  { unfold updateUtilizationObservations.
    by rewrite Hjs, removeOldUtils_evict, Hev. }
  exists k. conjuncts; [done | done | done | | | |].
  - destruct (tss !! k) as [tsk|] eqn:Hk'.
    + pose proof (sorted_from tss k tsk Hsorted Hk') as Hrecent.
      eapply Forall_impl; [exact Hrecent |].
      intros ts Hle. cbv beta.
      apply (inRange_more_recent clock _ _ tsk); [done | by apply Hfirst].
    + apply lookup_ge_None_1 in Hk'. by rewrite drop_ge.
  - intros Hclock. apply Forall_lookup_2. intros j ts Hj.
    apply lookup_take_Some in Hj as [Hj Hlt].
    destruct (inRange clock (RetentionHorizon podInitTime) (S n + k) ts)
      eqn:Hin; [| done].
    rewrite <- (Hout j ts Hlt Hj). symmetry.
    apply (inRange_earlier clock _ _ (S n + k)); [apply Hclock; lia | done].
  - intros ts Hk'. by apply sorted_from.
  - intros ->. rewrite Hres. by destruct k.
Qed.

End WindowClaims.

(** ** Closed instances of the window claims *)

(** With a horizon of 100 seconds an observation aged 99 seconds is kept and
    one aged 100 seconds is evicted; with the horizon capped at 600 seconds
    the same holds at 599 and 600 seconds, whatever the boot latency above
    30 seconds. *)
Example removeOldUtils_at_the_horizon :
  removeOldUtils (TP := goTime) Examples.frozen 0 [[(Examples.aged 99, 1)]] 5
  = [[(Examples.aged 99, 1)]] /\
  removeOldUtils (TP := goTime) Examples.frozen 0 [[(Examples.aged 100, 1)]] 5
  = [] /\
  removeOldUtils (TP := goTime) Examples.frozen 0 [[(Examples.aged 599, 1)]] 40
  = [[(Examples.aged 599, 1)]] /\
  removeOldUtils (TP := goTime) Examples.frozen 0 [[(Examples.aged 600, 1)]] 40
  = [] /\
  removeOldUtils (TP := goTime) Examples.frozen 0 [[(Examples.aged 600, 1)]] 1000
  = [].
Proof. conjuncts; vm_compute; reflexivity. Qed.

(** The four window tests of [predictive_utils_test.go] that the source can
    run: no previous observation, one recent, one stale, one stale and one
    recent. *)
Example updateUtilizationObservations_tests :
  updateUtilizationObservations (TP := goTime) Examples.frozen 0 70 [] 5
  = ([[(Examples.nowJSON, 70)]], None) /\
  updateUtilizationObservations (TP := goTime) Examples.frozen 0 70
    [[(Examples.aged 5, 50)]] 5
  = ([[(Examples.aged 5, 50)]; [(Examples.nowJSON, 70)]], None) /\
  updateUtilizationObservations (TP := goTime) Examples.frozen 0 70
    [[(Examples.elevenMinutesAgo, 50)]] 5
  = ([[(Examples.nowJSON, 70)]], None) /\
  updateUtilizationObservations (TP := goTime) Examples.frozen 0 70
    [[(Examples.elevenMinutesAgo, 50)]; [(Examples.oneMinuteAgo, 10)]] 5
  = ([[(Examples.oneMinuteAgo, 10)]; [(Examples.nowJSON, 70)]], None).
Proof. conjuncts; vm_compute; reflexivity. Qed.

(** C2, counterexample. A window whose only key is not a timestamp: the call
    returns a nil error, and the window it returns is not the one it was
    given. A malformed key after a recent observation is kept, again without
    an error. *)
Lemma malformed_timestamp_is_not_reported :
  snd (UnmarshalJSON (TimePkg := goTime) zeroTime "garbage") = false /\
  updateUtilizationObservations (TP := goTime) Examples.frozen 0 70
    [[("garbage", 50)]] 5
  = ([[(Examples.nowJSON, 70)]], None) /\
  updateUtilizationObservations (TP := goTime) Examples.frozen 0 70
    [[(Examples.oneMinuteAgo, 10)]; [("garbage", 50)]] 5
  = ([[(Examples.oneMinuteAgo, 10)]; [("garbage", 50)];
      [(Examples.nowJSON, 70)]], None).
Proof. conjuncts; vm_compute; reflexivity. Qed.

(** C10, at a window whose observation was written at the very instant of
    the call: both records carry the same timestamp, and both are in the
    window returned. *)
Lemma updateUtilizationObservations_appends_one_record_witness :
  MarshalJSON (TimePkg := goTime) (Examples.frozen 0) = Some Examples.nowJSON /\
  updateUtilizationObservations (TP := goTime) Examples.frozen 0 70
    [[(Examples.nowJSON, 50)]] 5
  = ([[(Examples.nowJSON, 50)]; [(Examples.nowJSON, 70)]], None).
Proof.
  split; [vm_compute; reflexivity |].
  destruct (updateUtilizationObservations_appends_one_record (TP := goTime)
              Examples.frozen 0 70 [[(Examples.nowJSON, 50)]] 5 Examples.nowJSON)
    as [Hres _]; [vm_compute; reflexivity |].
  rewrite Hres. vm_compute. reflexivity.
Defined.

(** The two records of that window after the call, computed: same key, both
    kept. *)
Example same_timestamp_twice :
  updateUtilizationObservations (TP := goTime) Examples.frozen 0 70
    [[(Examples.nowJSON, 50)]] 5
  = ([[(Examples.nowJSON, 50)]; [(Examples.nowJSON, 70)]], None).
Proof. vm_compute; reflexivity. Qed.

(** C4, at the window of the test with one stale and one recent
    observation. *)
Lemma updateUtilizationObservations_keeps_suffix_witness :
  let prev := [[(Examples.elevenMinutesAgo, 50)]; [(Examples.oneMinuteAgo, 10)]] in
  let tss := [Examples.now - 660 * Second; Examples.now - 60 * Second] in
  exists k : nat,
    (k <= length prev)%nat /\
    updateUtilizationObservations (TP := goTime) Examples.frozen 0 70 prev 5
    = (drop k prev ++ [[(Examples.nowJSON, 70)]], None) /\
    (forall j ts, (j < k)%nat -> tss !! j = Some ts ->
       inRange Examples.frozen (RetentionHorizon 5) (1 + j) ts = false) /\
    Forall (fun ts => inRange Examples.frozen (RetentionHorizon 5) (1 + k) ts = true)
      (drop k tss) /\
    ((forall i j, (i <= j)%nat -> Examples.frozen i <= Examples.frozen j) ->
     Forall (fun ts => inRange Examples.frozen (RetentionHorizon 5) (1 + k) ts = false)
       (take k tss)) /\
    (forall ts, tss !! k = Some ts -> Forall (Z.le ts) (drop k tss)) /\
    (prev = [] ->
     length (fst (updateUtilizationObservations (TP := goTime) Examples.frozen
                    0 70 prev 5)) = 1%nat).
Proof.
  apply (updateUtilizationObservations_keeps_suffix (TP := goTime)
           Examples.frozen 0 70).
  - vm_compute; reflexivity.
  - repeat constructor.
    + exists Examples.elevenMinutesAgo, 50. split; [reflexivity |].
      intros u. vm_compute. reflexivity.
    + exists Examples.oneMinuteAgo, 10. split; [reflexivity |].
      intros u. vm_compute. reflexivity.
  - repeat constructor. vm_compute. discriminate.
Defined.

(** ** Pods: facts *)

Section PodFacts.
Context `{TP : TimePkg}.

Lemma initTimeForPodConds_not_ready (conds : list PodCondition) (pod : Pod)
    (h : store) :
  find isReady conds = None ->
  initTimeForPodConds conds pod h = ((0%float, Some NotReadyError), h).
Proof.
  induction conds as [|c conds IH]; [done |].
  cbn [find initTimeForPodConds]. unfold isReady in *.
  destruct (String.eqb (CondType c) PodReady); [done |]. exact IH.
Qed.

Lemma initTimeForPodConds_ready (conds : list PodCondition) (pod : Pod)
    (h : store) (cond : PodCondition) :
  find isReady conds = Some cond ->
  isReady cond = true /\
  initTimeForPodConds conds pod h = initTimeForPodConds [cond] pod h.
Proof.
  induction conds as [|c conds IH]; [done |].
  cbn [find initTimeForPodConds]. unfold isReady in *.
  destruct (String.eqb (CondType c) PodReady) eqn:Hc.
  - intros [= <-]. by rewrite Hc.
  - intros Hfind. destruct (IH Hfind) as [Hr ->]. split; [done | reflexivity].
Qed.

(** A pod without ready condition: the error, and an untouched store. *)
Lemma initTimeForPod_not_ready (pod : Pod) (h : store) :
  readyCondition pod = None ->
  initTimeForPod pod h = ((0%float, Some NotReadyError), h).
Proof. apply initTimeForPodConds_not_ready. Qed.

(** A ready pod with a recorded duration: the record decides, and the store
    is untouched. *)
Lemma initTimeForPod_cached (pod : Pod) (h : store) (cond : PodCondition)
    (initTime : string) :
  readyCondition pod = Some cond ->
  getAnnotation h pod PitAnnotationName = Some initTime ->
  initTimeForPod pod h =
  (match ParseDuration initTime with
   | None => (0%float, Some (DurationParseError initTime))
   | Some initDuration => (Seconds initDuration, None)
   end, h).
Proof.
  intros Hr Ha. unfold initTimeForPod.
  destruct (initTimeForPodConds_ready _ pod h _ Hr) as [Hc ->].
  cbn [initTimeForPodConds]. unfold isReady in Hc. rewrite Hc, Ha.
  by destruct (ParseDuration initTime).
Qed.

(** A ready pod without a recorded duration: the duration is computed,
    written with [writeToPodAnnotations] and parsed back. *)
Lemma initTimeForPod_fresh (pod : Pod) (h : store) (cond : PodCondition) :
  readyCondition pod = Some cond ->
  getAnnotation h pod PitAnnotationName = None ->
  let initTime :=
    DurationString (Sub (LastTransitionTime cond) (CreationTimestamp (Meta pod))) in
  initTimeForPod pod h =
  (match ParseDuration initTime with
   | None => (0%float, Some (DurationParseError initTime))
   | Some initDuration => (Seconds initDuration, None)
   end, snd (writeToPodAnnotations pod PitAnnotationName initTime h)).
Proof.
  intros Hr Ha. unfold initTimeForPod.
  destruct (initTimeForPodConds_ready _ pod h _ Hr) as [Hc ->].
  cbn [initTimeForPodConds]. unfold isReady in Hc. rewrite Hc, Ha.
  by destruct (ParseDuration _).
Qed.

(** What the caller's pod sees after [writeToPodAnnotations] ran on the
    callee's copy: nothing when its map is nil, the new entry otherwise. *)
Lemma writeToPodAnnotations_nil (pod : Pod) (key value : string) (h : store)
    (key' : string) :
  Annotations (Meta pod) = None ->
  getAnnotation (snd (writeToPodAnnotations pod key value h)) pod key' = None.
Proof. intros Hnil. unfold getAnnotation. by rewrite Hnil. Qed.

Lemma writeToPodAnnotations_shared (pod : Pod) (key value : string) (h : store)
    (l : loc) :
  Annotations (Meta pod) = Some l ->
  getAnnotation (snd (writeToPodAnnotations pod key value h)) pod key
  = Some value.
Proof.
  intros Hl. unfold getAnnotation, writeToPodAnnotations.
  rewrite Hl. cbn. rewrite Hl. cbn. rewrite lookup_insert_eq. cbn.
  by rewrite lookup_insert_eq.
Qed.

End PodFacts.

Section PodLoops.
Context `{TP : TimePkg}.

(** The loop of [initTimeForPods] from its accumulators, [k] pods in. *)
Lemma initTimeForPodsFrom_latencies (pods : list Pod) (total : float64)
    (k : nat) (h : store) :
  initTimeForPodsFrom pods total (Z.of_nat k) h =
  match latencies pods h with
  | (inl err, h') => ((0%float, Some err), h')
  | (inr pits, h') =>
      (if Z.of_nat (k + length pits) =? 0 then 0%float
       else (fold_left PrimFloat.add pits total
             / float64_of_int (Z.of_nat (k + length pits)))%float,
       None, h')
  end.
Proof.
  revert total k h. induction pods as [|pod rest IH]; intros total k h.
  - cbn [initTimeForPodsFrom latencies length fold_left].
    rewrite Nat.add_0_r. by destruct (Z.of_nat k =? 0).
  - cbn [initTimeForPodsFrom latencies].
    destruct (initTimeForPod pod h) as [[pit [err|]] h1]; [done |].
    replace (Z.of_nat k + 1) with (Z.of_nat (S k)) by lia. rewrite IH.
    destruct (latencies rest h1) as [[err|pits] h2]; [done |].
    cbn [length fold_left]. by rewrite <- Nat.add_succ_comm.
Qed.

Lemma latencies_length (pods : list Pod) (h h' : store) (pits : list float64) :
  latencies pods h = (inr pits, h') -> length pits = length pods.
Proof.
  revert h h' pits. induction pods as [|pod rest IH]; intros h h' pits.
  - by intros [= <- _].
  - cbn [latencies].
    destruct (initTimeForPod pod h) as [[pit [err|]] h1]; [done |].
    destruct (latencies rest h1) as [[err|pits'] h2] eqn:Hrest; [done |].
    intros [= <- _]. simpl. f_equal. by eapply IH.
Qed.

(** A pod without ready condition anywhere in the list stops the
    collection with an error. *)
Lemma latencies_not_ready (pods : list Pod) (h : store) (pod : Pod) :
  In pod pods -> readyCondition pod = None ->
  exists err h', latencies pods h = (inl err, h').
Proof.
  revert h. induction pods as [|p rest IH]; intros h Hin Hnr; [done |].
  cbn [latencies].
  destruct (initTimeForPod p h) as [[pit [err|]] h1] eqn:Hp; [by eauto |].
  destruct Hin as [-> | Hin].
  - by rewrite (initTimeForPod_not_ready _ _ Hnr) in Hp.
  - destruct (IH h1 Hin Hnr) as (err & h' & ->). by eauto.
Qed.

End PodLoops.

(** ** Pods: claims *)

Section PodClaims.
Context `{TP : TimePkg}.

(** C9, as amended. [initTimeForPod] fails with the not-ready error exactly
    when the pod has no ready condition. For a pod with a ready condition:
    without a recorded duration it returns the seconds from the creation of
    the pod to the transition of that condition (when the written duration
    reads back); with a recorded duration that parses it returns the seconds
    of the record, whatever the timestamps of the pod; with a record that
    does not parse it fails with the parse error. *)
Theorem initTimeForPod_cases (pod : Pod) (h : store) :
  (readyCondition pod = None <->
   snd (fst (initTimeForPod pod h)) = Some NotReadyError) /\
  (forall cond,
     readyCondition pod = Some cond ->
     getAnnotation h pod PitAnnotationName = None ->
     ParseDuration
       (DurationString
          (Sub (LastTransitionTime cond) (CreationTimestamp (Meta pod))))
     = Some (Sub (LastTransitionTime cond) (CreationTimestamp (Meta pod))) ->
     fst (initTimeForPod pod h)
     = (Seconds (Sub (LastTransitionTime cond) (CreationTimestamp (Meta pod))),
        None)) /\
  (forall cond initTime initDuration,
     readyCondition pod = Some cond ->
     getAnnotation h pod PitAnnotationName = Some initTime ->
     ParseDuration initTime = Some initDuration ->
     initTimeForPod pod h = ((Seconds initDuration, None), h)) /\
  (forall cond initTime,
     readyCondition pod = Some cond ->
     getAnnotation h pod PitAnnotationName = Some initTime ->
     ParseDuration initTime = None ->
     initTimeForPod pod h = ((0%float, Some (DurationParseError initTime)), h)).
Proof.
  conjuncts; [split |..].
  - intros Hnr. by rewrite (initTimeForPod_not_ready _ _ Hnr).
  - destruct (readyCondition pod) as [cond|] eqn:Hr; [|done].
    destruct (getAnnotation h pod PitAnnotationName) as [s|] eqn:Ha.
    + rewrite (initTimeForPod_cached _ _ _ _ Hr Ha).
      by destruct (ParseDuration s).
    + rewrite (initTimeForPod_fresh _ _ _ Hr Ha).
      by destruct (ParseDuration _).
  - intros cond Hr Ha Hround.
    by rewrite (initTimeForPod_fresh _ _ _ Hr Ha), Hround.
  - intros cond s d Hr Ha Hs.
    by rewrite (initTimeForPod_cached _ _ _ _ Hr Ha), Hs.
  - intros cond s Hr Ha Hs.
    by rewrite (initTimeForPod_cached _ _ _ _ Hr Ha), Hs.
Qed.

(** C1, as amended. [initTimeForPods] returns 0.0 and the error of the first
    pod for which [initTimeForPod] fails; when no pod fails it returns the
    mean of the latencies, one per pod, and 0.0 with a nil error for no pod
    at all. A pod without ready condition is not skipped: it makes the call
    fail. Two pods that took 60 and 120 seconds give 90.0. *)
Theorem initTimeForPods_mean_or_first_error (pods : list Pod) (h : store) :
  initTimeForPods pods h =
  match latencies pods h with
  | (inl err, h') => ((0%float, Some err), h')
  | (inr [], h') => ((0%float, None), h')
  | (inr pits, h') => ((mean pits, None), h')
  end /\
  (forall pits h', latencies pods h = (inr pits, h') ->
     length pits = length pods) /\
  (forall pod, In pod pods -> readyCondition pod = None ->
     exists err h', initTimeForPods pods h = ((0%float, Some err), h')) /\
  initTimeForPods [] h = ((0%float, None), h) /\
  fst (initTimeForPods (TP := goTime)
         [PodExamples.pod60; PodExamples.pod120] ∅) = (90%float, None).
Proof.
  assert (Hloop : initTimeForPods pods h =
    match latencies pods h with
    | (inl err, h') => ((0%float, Some err), h')
    | (inr [], h') => ((0%float, None), h')
    | (inr pits, h') => ((mean pits, None), h')
    end).
  { unfold initTimeForPods.
    rewrite (initTimeForPodsFrom_latencies pods 0%float 0 h).
    destruct (latencies pods h) as [[err|[|pit pits]] h']; [done | done |].
    unfold mean. cbn [Nat.add length].
    by destruct (Z.eqb_spec (Z.of_nat (S (length pits))) 0); [lia |]. }
  conjuncts.
  - exact Hloop.
  - intros pits h'. apply latencies_length.
  - intros pod Hin Hnr. rewrite Hloop.
    destruct (latencies_not_ready pods h pod Hin Hnr) as (err & h' & ->).
    by eauto.
  - reflexivity.
  - vm_compute. reflexivity.
Qed.

End PodClaims.

(** ** Closed instances of the pod claims *)

(** C9, counterexample. A ready pod that took 60 seconds and whose
    annotations record the well-formed duration [5s]: the call returns 5, not
    60. *)
Lemma recorded_duration_overrides_timestamps :
  readyCondition PodExamples.cachedPod
  = Some (PodExamples.ready (PodExamples.created + 60 * Second)) /\
  getAnnotation PodExamples.cachedStore PodExamples.cachedPod PitAnnotationName
  = Some "5s"%string /\
  ParseDuration (TimePkg := goTime) "5s" = Some (5 * Second) /\
  Seconds (Sub (PodExamples.created + 60 * Second) PodExamples.created)
  = 60%float /\
  fst (initTimeForPod (TP := goTime) PodExamples.cachedPod PodExamples.cachedStore)
  = (5%float, None).
Proof. conjuncts; vm_compute; reflexivity. Qed.

(** C9, at four pods: not ready; ready without a record; ready with the
    record [5s]; ready with the record [soon]. *)
Lemma initTimeForPod_cases_witness :
  snd (fst (initTimeForPod (TP := goTime) PodExamples.unready ∅))
  = Some NotReadyError /\
  fst (initTimeForPod (TP := goTime) PodExamples.pod60 ∅)
  = (Seconds (60 * Second), None) /\
  initTimeForPod (TP := goTime) PodExamples.cachedPod PodExamples.cachedStore
  = ((Seconds (5 * Second), None), PodExamples.cachedStore) /\
  initTimeForPod (TP := goTime) PodExamples.cachedPod PodExamples.brokenStore
  = ((0%float, Some (DurationParseError "soon")), PodExamples.brokenStore).
Proof.
  conjuncts.
  - apply (proj1 (initTimeForPod_cases (TP := goTime) PodExamples.unready ∅)).
    reflexivity.
  - apply (proj1 (proj2 (initTimeForPod_cases (TP := goTime)
                           PodExamples.pod60 ∅))
             (PodExamples.ready (PodExamples.created + 60 * Second)));
      vm_compute; reflexivity.
  - apply (proj1 (proj2 (proj2 (initTimeForPod_cases (TP := goTime)
                                  PodExamples.cachedPod PodExamples.cachedStore)))
             (PodExamples.ready (PodExamples.created + 60 * Second)) "5s"%string);
      vm_compute; reflexivity.
  - apply (proj2 (proj2 (proj2 (initTimeForPod_cases (TP := goTime)
                                  PodExamples.cachedPod PodExamples.brokenStore)))
             (PodExamples.ready (PodExamples.created + 60 * Second)) "soon"%string);
      vm_compute; reflexivity.
Defined.

(** C1, counterexample. A pod that has only been scheduled is not skipped:
    alone it makes the call fail instead of returning 0.0 with a nil error,
    and between two ready pods it makes the call fail instead of returning
    their mean. *)
Lemma unready_pod_is_an_error :
  readyCondition PodExamples.unready = None /\
  fst (initTimeForPods (TP := goTime) [PodExamples.unready] ∅)
  = (0%float, Some NotReadyError) /\
  fst (initTimeForPods (TP := goTime)
         [PodExamples.pod60; PodExamples.unready; PodExamples.pod120] ∅)
  = (0%float, Some NotReadyError).
Proof. conjuncts; vm_compute; reflexivity. Qed.

(** The pods of [createTestPods] took 240 and 180 seconds. *)
Example initTimeForPods_test :
  fst (initTimeForPods (TP := goTime) [PodExamples.pod1; PodExamples.pod2] ∅)
  = (210%float, None).
Proof. vm_compute. reflexivity. Qed.

(** ** The annotation written by [initTimeForPod] *)

Section PodCache.
Context `{TP : TimePkg}.

(** A pod whose annotation map is nil shows no record after the call: the
    map made by [writeToPodAnnotations] is attached to the copy of the pod
    inside [initTimeForPod] only. *)
Lemma initTimeForPod_nil_map_not_recorded (pod : Pod) (h : store) (key : string) :
  Annotations (Meta pod) = None ->
  getAnnotation (snd (initTimeForPod pod h)) pod key = None.
Proof. intros Hnil. unfold getAnnotation. by rewrite Hnil. Qed.

(** A ready pod with a map, and no record in it: the call records the
    duration, and a second call returns the same value from the record,
    leaving the store as it is. *)
Lemma initTimeForPod_shared_map_recorded (pod : Pod) (h : store)
    (cond : PodCondition) (l : loc) :
  readyCondition pod = Some cond ->
  Annotations (Meta pod) = Some l ->
  getAnnotation h pod PitAnnotationName = None ->
  let d := Sub (LastTransitionTime cond) (CreationTimestamp (Meta pod)) in
  ParseDuration (DurationString d) = Some d ->
  let h' := snd (initTimeForPod pod h) in
  fst (initTimeForPod pod h) = (Seconds d, None) /\
  getAnnotation h' pod PitAnnotationName = Some (DurationString d) /\
  initTimeForPod pod h' = ((Seconds d, None), h').
Proof.
  intros Hr Hl Ha d Hround h'.
  assert (Hfirst : initTimeForPod pod h =
            ((Seconds d, None),
             snd (writeToPodAnnotations pod PitAnnotationName (DurationString d) h))).
  { rewrite (initTimeForPod_fresh _ _ _ Hr Ha). fold d. by rewrite Hround. }
  assert (Hrec : getAnnotation h' pod PitAnnotationName = Some (DurationString d)).
  { unfold h'. rewrite Hfirst. cbn [snd].
    by apply (writeToPodAnnotations_shared _ _ _ _ l). }
  conjuncts; [by rewrite Hfirst | done |].
  by rewrite (initTimeForPod_cached _ _ _ _ Hr Hrec), Hround.
Qed.

End PodCache.

(** C3, at the first pod of [createTestPods], whose annotation map is nil.
    The call returns 240 seconds, but the pod of the caller shows no record
    afterwards, and a second call computes the duration again and writes it
    into a second fresh map. *)
Theorem initTimeForPod_nil_annotations_recomputes :
  let h1 := snd (initTimeForPod (TP := goTime) PodExamples.pod1 ∅) in
  let h2 := snd (initTimeForPod (TP := goTime) PodExamples.pod1 h1) in
  Annotations (Meta PodExamples.pod1) = None /\
  fst (initTimeForPod (TP := goTime) PodExamples.pod1 ∅) = (240%float, None) /\
  getAnnotation h1 PodExamples.pod1 PitAnnotationName = None /\
  h1 !! 1%positive = Some {[ PitAnnotationName := "4m0s"%string ]} /\
  h1 !! 2%positive = None /\
  h2 !! 2%positive = Some {[ PitAnnotationName := "4m0s"%string ]}.
Proof. cbv zeta. conjuncts; vm_compute; reflexivity. Qed.

(** By contrast a pod with an empty, non-nil map gets the record [1m0s], and
    the second call is served from it and changes nothing. *)
Lemma initTimeForPod_shared_map_recorded_witness :
  let h1 := snd (initTimeForPod (TP := goTime) PodExamples.cachedPod
                   PodExamples.emptyStore) in
  fst (initTimeForPod (TP := goTime) PodExamples.cachedPod PodExamples.emptyStore)
  = (Seconds (60 * Second), None) /\
  getAnnotation h1 PodExamples.cachedPod PitAnnotationName
  = Some (DurationString (TimePkg := goTime) (60 * Second)) /\
  initTimeForPod (TP := goTime) PodExamples.cachedPod h1
  = ((Seconds (60 * Second), None), h1).
Proof.
  apply (initTimeForPod_shared_map_recorded (TP := goTime)
           PodExamples.cachedPod PodExamples.emptyStore
           (PodExamples.ready (PodExamples.created + 60 * Second)) 1%positive);
    vm_compute; reflexivity.
Defined.

Example initTimeForPod_shared_map_example :
  let h1 := snd (initTimeForPod (TP := goTime) PodExamples.cachedPod
                   PodExamples.emptyStore) in
  getAnnotation h1 PodExamples.cachedPod PitAnnotationName = Some "1m0s"%string /\
  initTimeForPod (TP := goTime) PodExamples.cachedPod h1 = ((60%float, None), h1).
Proof. cbv zeta. conjuncts; vm_compute; reflexivity. Qed.

(** ** The line of best fit *)

Section FitFacts.
Context `{TP : TimePkg}.

Lemma appendEntry_fold_length (obs : observation)
    (acc : list float64 * list float64) :
  length (fst acc) = length (snd acc) ->
  length (fst (fold_left appendEntry obs acc))
  = length (snd (fold_left appendEntry obs acc)).
Proof.
  revert acc. induction obs as [|entry obs IH]; intros acc Hacc; [done |].
  cbn [fold_left]. apply IH. unfold appendEntry. cbn [fst snd].
  rewrite !length_app. simpl. lia.
Qed.

(** The two lists of [getSecondsAndCPULists] are parallel. *)
Lemma getSecondsAndCPULists_length (w : observations) :
  length (fst (getSecondsAndCPULists w)) = length (snd (getSecondsAndCPULists w)).
Proof.
  unfold getSecondsAndCPULists.
  assert (H : forall acc : list float64 * list float64,
             length (fst acc) = length (snd acc) ->
             length (fst (fold_left
                            (fun acc obs => fold_left appendEntry obs acc) w acc))
             = length (snd (fold_left
                              (fun acc obs => fold_left appendEntry obs acc) w acc))).
  { induction w as [|obs w IH]; intros acc Hacc; [done |].
    cbn [fold_left]. apply IH. by apply appendEntry_fold_length. }
  by apply H.
Qed.

End FitFacts.

(** With the reference implementation of package stats, the covariance of
    two parallel lists fails only if the variance of the first does. *)
Lemma CovariancePopulation_parallel (xs ys : list float64) (var : float64) :
  length xs = length ys ->
  PopulationVariance (StatsPkg := goStats) xs = (var, None) ->
  snd (CovariancePopulation (StatsPkg := goStats) xs ys) = None.
Proof.
  intros Hlen Hvar. cbn in *. unfold GoStd.CovariancePopulation.
  destruct xs as [|x xs]; [done |]. destruct ys as [|y ys]; [done |].
  cbn [length Nat.eqb orb]. injection Hlen as Hlen.
  by rewrite Hlen, Nat.eqb_refl.
Qed.

Lemma PopulationVariance_nonempty (xs : list float64) (var : float64) :
  PopulationVariance (StatsPkg := goStats) xs = (var, None) -> xs <> [].
Proof. by destruct xs. Qed.

Lemma Mean_nonempty (xs : list float64) :
  xs <> [] -> snd (Mean (StatsPkg := goStats) xs) = None.
Proof. by destruct xs. Qed.

Section FitClaims.
Context `{SP : StatsPkg}.

(** C5. When the population variance of the seconds is zero,
    [lineOfBestFit] returns the error "Can't divide by variance if it is 0."
    and no slope or intercept: this holds for every implementation of the
    statistics whose covariance succeeded, and, with the reference
    implementation, for the lists of every window. A slope is only ever
    returned as a quotient by a variance that is not zero. Three
    observations of the same second are such a window. *)
Theorem lineOfBestFit_zero_variance :
  (forall allSeconds allCPUUtilizations covariance secondsVariance,
     CovariancePopulation allSeconds allCPUUtilizations = (covariance, None) ->
     PopulationVariance allSeconds = (secondsVariance, None) ->
     PrimFloat.eqb secondsVariance 0 = true ->
     lineOfBestFit allSeconds allCPUUtilizations
     = (None, None, Some DegenerateInputError)) /\
  (forall allSeconds allCPUUtilizations yIntercept slope err,
     lineOfBestFit allSeconds allCPUUtilizations = (yIntercept, Some slope, err) ->
     exists covariance secondsVariance,
       CovariancePopulation allSeconds allCPUUtilizations = (covariance, None) /\
       PopulationVariance allSeconds = (secondsVariance, None) /\
       PrimFloat.eqb secondsVariance 0 = false /\
       slope = (covariance / secondsVariance)%float) /\
  (forall (TP : TimePkg) (w : observations) secondsVariance,
     PopulationVariance (StatsPkg := goStats) (fst (getSecondsAndCPULists w))
     = (secondsVariance, None) ->
     PrimFloat.eqb secondsVariance 0 = true ->
     lineOfBestFit (SP := goStats) (fst (getSecondsAndCPULists w))
       (snd (getSecondsAndCPULists w))
     = (None, None, Some DegenerateInputError)) /\
  lineOfBestFit (SP := goStats)
    (fst (getSecondsAndCPULists (TP := goTime) FitExamples.sameSecond))
    (snd (getSecondsAndCPULists (TP := goTime) FitExamples.sameSecond))
  = (None, None, Some DegenerateInputError).
Proof.
  conjuncts.
  - intros xs ys cov var Hcov Hvar Hzero. unfold lineOfBestFit.
    by rewrite Hcov, Hvar, Hzero.
  - intros xs ys yi slope err. unfold lineOfBestFit.
    destruct (CovariancePopulation xs ys) as [cov [e|]]; [done |].
    destruct (PopulationVariance xs) as [var [e|]]; [done |].
    destruct (PrimFloat.eqb var 0) eqn:Hzero; [done |].
    destruct (Mean xs) as [mx [e|]]; [done |].
    destruct (Mean ys) as [my [e|]]; [done |].
    intros [= _ <- _]. by exists cov, var.
  - intros TP w var Hvar Hzero.
    pose proof (CovariancePopulation_parallel _ _ var
                  (getSecondsAndCPULists_length w) Hvar) as Hcov.
    unfold lineOfBestFit.
    destruct (CovariancePopulation _ _) as [cov [e|]]; [done |].
    by rewrite Hvar, Hzero.
  - vm_compute. reflexivity.
Qed.

(** C6. When the statistics succeed and the variance of the seconds is not
    zero, [lineOfBestFit] returns the slope [covariance / variance] and the
    intercept [mean(utilization) - slope * mean(seconds)]. With the reference
    statistics this is so for all parallel lists whose seconds have a
    variance that is not zero. On the data of the test the slope is within 1
    of 3.7 and the intercept within 1 of 8.5. *)
Theorem lineOfBestFit_slope_intercept :
  (forall allSeconds allCPUUtilizations covariance secondsVariance
          meanSeconds meanCPUUtilization,
     CovariancePopulation allSeconds allCPUUtilizations = (covariance, None) ->
     PopulationVariance allSeconds = (secondsVariance, None) ->
     PrimFloat.eqb secondsVariance 0 = false ->
     Mean allSeconds = (meanSeconds, None) ->
     Mean allCPUUtilizations = (meanCPUUtilization, None) ->
     lineOfBestFit allSeconds allCPUUtilizations
     = (Some (meanCPUUtilization
              - covariance / secondsVariance * meanSeconds)%float,
        Some (covariance / secondsVariance)%float, None)) /\
  (forall allSeconds allCPUUtilizations secondsVariance,
     length allSeconds = length allCPUUtilizations ->
     PopulationVariance (StatsPkg := goStats) allSeconds
     = (secondsVariance, None) ->
     PrimFloat.eqb secondsVariance 0 = false ->
     let covariance :=
       fst (CovariancePopulation (StatsPkg := goStats)
              allSeconds allCPUUtilizations) in
     let meanSeconds := fst (Mean (StatsPkg := goStats) allSeconds) in
     let meanCPUUtilization :=
       fst (Mean (StatsPkg := goStats) allCPUUtilizations) in
     lineOfBestFit (SP := goStats) allSeconds allCPUUtilizations
     = (Some (meanCPUUtilization
              - covariance / secondsVariance * meanSeconds)%float,
        Some (covariance / secondsVariance)%float, None)) /\
  exists yIntercept slope,
    lineOfBestFit (SP := goStats) FitExamples.seconds FitExamples.utilization
    = (Some yIntercept, Some slope, None) /\
    PrimFloat.ltb (PrimFloat.abs (3.7 - slope)) 1 = true /\
    PrimFloat.ltb (PrimFloat.abs (8.5 - yIntercept)) 1 = true.
Proof.
  assert (Hgen : forall (S : StatsPkg) xs ys cov var mx my,
    CovariancePopulation xs ys = (cov, None) ->
    PopulationVariance xs = (var, None) ->
    PrimFloat.eqb var 0 = false ->
    Mean xs = (mx, None) -> Mean ys = (my, None) ->
    lineOfBestFit xs ys
    = (Some (my - cov / var * mx)%float, Some (cov / var)%float, None)).
  { intros S xs ys cov var mx my Hcov Hvar Hzero Hmx Hmy. unfold lineOfBestFit.
    by rewrite Hcov, Hvar, Hzero, Hmx, Hmy. }
  conjuncts.
  - apply Hgen.
  - intros xs ys var Hlen Hvar Hzero cov mx my.
    pose proof (PopulationVariance_nonempty _ _ Hvar) as Hxs.
    assert (Hys : ys <> []) by (destruct xs, ys; done).
    apply Hgen; [| done | done | |]; apply injective_projections; try done.
    + by apply (CovariancePopulation_parallel _ _ var).
    + by apply Mean_nonempty.
    + by apply Mean_nonempty.
  - eexists _, _. conjuncts; vm_compute; reflexivity.
Qed.

End FitClaims.

(** C6, on the data of the test: the statistics of the reference
    implementation, and the line they give. *)
Lemma lineOfBestFit_slope_intercept_witness :
  lineOfBestFit (SP := goStats) FitExamples.seconds FitExamples.utilization
  = (Some (27 - 0x1.a99999999999ap+3 / 0x1.ccccccccccccdp+1 * 5)%float,
     Some (0x1.a99999999999ap+3 / 0x1.ccccccccccccdp+1)%float, None).
Proof.
  apply (proj1 (lineOfBestFit_slope_intercept (SP := goStats)));
    vm_compute; reflexivity.
Defined.

(** C5, on three observations of the same second. *)
Lemma lineOfBestFit_zero_variance_witness :
  lineOfBestFit (SP := goStats) [1451607000; 1451607000; 1451607000]%float
    [50; 60; 70]%float
  = (None, None, Some DegenerateInputError).
Proof.
  apply (proj1 (lineOfBestFit_zero_variance (SP := goStats))
           _ _ 0%float 0%float); vm_compute; reflexivity.
Defined.

(** ** The prediction *)

(** C8. [predictFutureCPUFromBestFit] is the line evaluated at the current
    time plus the initialisation time, for all arguments; nothing is clamped:
    the result can be negative, above 100 or infinite. With an
    initialisation time of 5, at time 0, on the line of intercept 0 and
    slope 1 it is 5.0. *)
Theorem predictFutureCPUFromBestFit_line (pit currentTime yIntercept slope : float64) :
  predictFutureCPUFromBestFit pit currentTime yIntercept slope
  = (yIntercept + slope * (currentTime + pit))%float /\
  predictFutureCPUFromBestFit 5 0 0 1 = 5%float /\
  predictFutureCPUFromBestFit 5 0 0 (-1) = (-5)%float /\
  predictFutureCPUFromBestFit 5 0 0 1000 = 5000%float /\
  predictFutureCPUFromBestFit 5 0 0 0x1p1023 = infinity.
Proof.
  conjuncts; [reflexivity | | | |]; vm_compute; reflexivity.
Qed.

(** * Further properties *)

(** ** Writing and reading annotations *)

(** After [writeToPodAnnotations], the pod variable that was written reads
    the value back under the key, whether its map was nil or not; every
    other key reads as before, and nothing else of the pod has changed. *)
Theorem writeToPodAnnotations_lookup (pod : Pod) (key value : string)
    (h : store) (key' : string) :
  getAnnotation (snd (writeToPodAnnotations pod key value h))
    (fst (writeToPodAnnotations pod key value h)) key = Some value /\
  (key' <> key ->
   getAnnotation (snd (writeToPodAnnotations pod key value h))
     (fst (writeToPodAnnotations pod key value h)) key'
   = getAnnotation h pod key') /\
  Status (fst (writeToPodAnnotations pod key value h)) = Status pod /\
  CreationTimestamp (Meta (fst (writeToPodAnnotations pod key value h)))
  = CreationTimestamp (Meta pod).
Proof.
  unfold writeToPodAnnotations, getAnnotation.
  destruct pod as [[[l|] created] status]; cbn.
  - rewrite !lookup_insert_eq. cbn. rewrite lookup_insert_eq.
    conjuncts; try done. intros Hne. by rewrite lookup_insert_ne.
  - rewrite !lookup_insert_eq. cbn. rewrite lookup_insert_eq.
    conjuncts; try done. intros Hne. by rewrite lookup_insert_ne.
Qed.

Lemma writeToPodAnnotations_other_map (pod : Pod) (key value : string)
    (h : store) (l : loc) (m : annotationMap) :
  h !! l = Some m ->
  Annotations (Meta pod) <> Some l ->
  snd (writeToPodAnnotations pod key value h) !! l = Some m.
Proof.
  intros Hl Hne. unfold writeToPodAnnotations.
  destruct pod as [[[l0|] created] status]; cbn in *.
  - rewrite lookup_insert_ne; [done | congruence].
  - assert (Hfresh : fresh (dom h) <> l).
    { intros <-. apply (is_fresh (dom h)). apply elem_of_dom. by eexists. }
    by rewrite !lookup_insert_ne.
Qed.

(** [writeToPodAnnotations] leaves every map of the store other than the
    pod's own as it is; for a pod with a nil map that is every map, the new
    map being made at an address not in use. *)
Theorem writeToPodAnnotations_frame (pod : Pod) (key value : string)
    (h : store) (l : loc) (m : annotationMap) :
  h !! l = Some m ->
  Annotations (Meta pod) <> Some l ->
  snd (writeToPodAnnotations pod key value h) !! l = Some m /\
  (Annotations (Meta pod) = None ->
   Annotations (Meta (fst (writeToPodAnnotations pod key value h))) <> Some l).
Proof.
  intros Hl Hne. split; [by apply writeToPodAnnotations_other_map |].
  intros Hnil. unfold writeToPodAnnotations. rewrite Hnil. cbn.
  intros [= Hfresh]. apply (is_fresh (dom h)). rewrite Hfresh.
  apply elem_of_dom. by eexists.
Qed.

(** [isPredictive] is true exactly when the annotation ["predictive"] is
    present with the value ["true"] (so it is false for an autoscaler
    without annotations). After [writeToHPAAnnotations] with that key it is
    true exactly when the value written is ["true"]; after a write under any
    other key it is what it was. *)
Theorem isPredictive_writeToHPAAnnotations (hpa : HorizontalPodAutoscaler)
    (h : store) (key value : string) :
  (isPredictive h hpa = true <->
   getHPAAnnotation h hpa PredictiveAutoscalingAnnotationName
   = Some "true"%string) /\
  (key = PredictiveAutoscalingAnnotationName ->
   isPredictive (snd (writeToHPAAnnotations hpa key value h))
     (fst (writeToHPAAnnotations hpa key value h))
   = String.eqb value "true") /\
  (key <> PredictiveAutoscalingAnnotationName ->
   isPredictive (snd (writeToHPAAnnotations hpa key value h))
     (fst (writeToHPAAnnotations hpa key value h))
   = isPredictive h hpa).
Proof.
  conjuncts.
  - unfold isPredictive.
    destruct (getHPAAnnotation h hpa PredictiveAutoscalingAnnotationName)
      as [s|]; [|done].
    split.
    + intros Hs. apply String.eqb_eq in Hs. by subst.
    + intros [= ->]. done.
  - intros ->. unfold isPredictive, getHPAAnnotation, writeToHPAAnnotations.
    destruct hpa as [[[l|] created]]; cbn;
      rewrite !lookup_insert_eq; cbn; by rewrite lookup_insert_eq.
  - intros Hne. unfold isPredictive, getHPAAnnotation, writeToHPAAnnotations.
    destruct hpa as [[[l|] created]]; cbn;
      rewrite !lookup_insert_eq; cbn; by rewrite lookup_insert_ne.
Qed.

(** ** What [initTimeForPod] and [initTimeForPods] do to the store *)

Lemma extends_refl (h : store) : extends h h.
Proof. intros l m key value Hl Hk. by exists m. Qed.

Lemma extends_trans (h1 h2 h3 : store) :
  extends h1 h2 -> extends h2 h3 -> extends h1 h3.
Proof.
  intros H12 H23 l m key value Hl Hk.
  destruct (H12 l m key value Hl Hk) as (m2 & Hl2 & Hk2).
  exact (H23 l m2 key value Hl2 Hk2).
Qed.

(** Writing under a key the pod does not have yet only adds to the store. *)
Lemma writeToPodAnnotations_extends (pod : Pod) (key value : string)
    (h : store) :
  getAnnotation h pod key = None ->
  extends h (snd (writeToPodAnnotations pod key value h)).
Proof.
  intros Hnone l m k v Hl Hk.
  destruct (decide (Annotations (Meta pod) = Some l)) as [Hpod|Hpod].
  - unfold writeToPodAnnotations, getAnnotation in *. rewrite Hpod in *.
    cbn in *. rewrite Hpod. cbn. rewrite Hl in *. cbn in *.
    rewrite lookup_insert_eq. eexists; split; [done |].
    rewrite lookup_insert_ne; [done | congruence].
  - exists m. split; [by apply writeToPodAnnotations_other_map | done].
Qed.

Section PodStore.
Context `{TP : TimePkg}.

Lemma initTimeForPod_extends (pod : Pod) (h : store) :
  extends h (snd (initTimeForPod pod h)).
Proof.
  destruct (readyCondition pod) as [cond|] eqn:Hr.
  - destruct (getAnnotation h pod PitAnnotationName) as [s|] eqn:Ha.
    + rewrite (initTimeForPod_cached _ _ _ _ Hr Ha). apply extends_refl.
    + rewrite (initTimeForPod_fresh _ _ _ Hr Ha). cbn [snd].
      by apply writeToPodAnnotations_extends.
  - rewrite (initTimeForPod_not_ready _ _ Hr). apply extends_refl.
Qed.

Lemma initTimeForPodsFrom_extends (pods : list Pod) (total : float64)
    (readyPods : Z) (h : store) :
  extends h (snd (initTimeForPodsFrom pods total readyPods h)).
Proof.
  revert total readyPods h.
  induction pods as [|pod rest IH]; intros total readyPods h.
  - cbn. destruct (readyPods =? 0); apply extends_refl.
  - cbn [initTimeForPodsFrom].
    pose proof (initTimeForPod_extends pod h) as Hpod.
    destruct (initTimeForPod pod h) as [[pit [err|]] h1]; cbn [snd] in *.
    + done.
    + eapply extends_trans; [exact Hpod | apply IH].
Qed.

(** [initTimeForPods] only ever adds annotations: every entry of every map
    of the store is still there, with the same value, after the call; in
    particular the initialisation time recorded for a pod, in the list or
    not, is never overwritten. *)
Theorem initTimeForPods_only_adds (pods : list Pod) (h : store) :
  extends h (snd (initTimeForPods pods h)) /\
  forall pod initTime,
    getAnnotation h pod PitAnnotationName = Some initTime ->
    getAnnotation (snd (initTimeForPods pods h)) pod PitAnnotationName
    = Some initTime.
Proof.
  assert (Hext : extends h (snd (initTimeForPods pods h)))
    by apply initTimeForPodsFrom_extends.
  split; [exact Hext |].
  intros pod s Ha. unfold getAnnotation, annotationsOf in *.
  destruct (Annotations (Meta pod)) as [l|]; [|done].
  destruct (h !! l) as [m|] eqn:Hl; [|done]. cbn in Ha.
  destruct (Hext l m _ _ Hl Ha) as (m' & -> & Hm'). done.
Qed.

(** A second call of [initTimeForPod] on the same pod returns what the first
    returned, value and error, for every pod and store. When the pod has a
    map, the second call also leaves the store as the first left it. *)
Theorem initTimeForPod_stable (pod : Pod) (h : store) :
  fst (initTimeForPod pod (snd (initTimeForPod pod h)))
  = fst (initTimeForPod pod h) /\
  (Annotations (Meta pod) <> None ->
   snd (initTimeForPod pod (snd (initTimeForPod pod h)))
   = snd (initTimeForPod pod h)).
Proof.
  destruct (readyCondition pod) as [cond|] eqn:Hr.
  - destruct (getAnnotation h pod PitAnnotationName) as [s|] eqn:Ha.
    + rewrite (initTimeForPod_cached _ _ _ _ Hr Ha). cbn [snd].
      by rewrite (initTimeForPod_cached _ _ _ _ Hr Ha).
    + rewrite (initTimeForPod_fresh _ _ _ Hr Ha). cbn [fst snd].
      destruct (Annotations (Meta pod)) as [l|] eqn:Hl.
      * pose proof (writeToPodAnnotations_shared pod PitAnnotationName
          (DurationString
             (Sub (LastTransitionTime cond) (CreationTimestamp (Meta pod))))
          h l Hl) as Hrec.
        by rewrite (initTimeForPod_cached _ _ _ _ Hr Hrec).
      * pose proof (writeToPodAnnotations_nil pod PitAnnotationName
          (DurationString
             (Sub (LastTransitionTime cond) (CreationTimestamp (Meta pod))))
          h PitAnnotationName Hl) as Hrec.
        rewrite (initTimeForPod_fresh _ _ _ Hr Hrec). by split.
  - rewrite (initTimeForPod_not_ready _ _ Hr). cbn [snd].
    by rewrite (initTimeForPod_not_ready _ _ Hr).
Qed.

(** [initTimeForPods] does not look past the first pod without ready
    condition: it fails, and what follows that pod in the list changes
    neither the result nor the store. *)
Theorem initTimeForPods_stops_at_first_error (pods bad_rest bad_rest' : list Pod)
    (bad : Pod) (h : store) :
  readyCondition bad = None ->
  initTimeForPods (pods ++ bad :: bad_rest) h
  = initTimeForPods (pods ++ bad :: bad_rest') h /\
  exists err, snd (fst (initTimeForPods (pods ++ bad :: bad_rest) h)) = Some err.
Proof.
  intros Hbad. unfold initTimeForPods.
  generalize 0%float. generalize 0. revert h.
  induction pods as [|pod pods IH]; intros h readyPods total.
  - cbn [app initTimeForPodsFrom].
    rewrite (initTimeForPod_not_ready _ _ Hbad). by eauto.
  - cbn [app initTimeForPodsFrom].
    destruct (initTimeForPod pod h) as [[pit [err|]] h1]; [by eauto |].
    apply IH.
Qed.

End PodStore.

(** ** The lists handed to the regression *)

Section Lists.
Context `{TP : TimePkg}.

Lemma appendEntry_fold (obs : observation) (acc : list float64 * list float64) :
  fold_left appendEntry obs acc =
  (fst acc ++ map (fun entry =>
                     float64_of_int
                       (Unix (fst (UnmarshalJSON zeroTime (fst entry))))) obs,
   snd acc ++ map (fun entry => float64_of_int (snd entry)) obs).
Proof.
  revert acc. induction obs as [|entry obs IH]; intros [xs ys].
  - cbn. by rewrite !app_nil_r.
  - cbn [fold_left]. rewrite IH. unfold appendEntry. cbn [fst snd map].
    by rewrite <- !app_assoc.
Qed.

(** [getSecondsAndCPULists] returns, entry by entry in the order of the
    window, the Unix seconds of the parsed key and the utilization as
    [float64]: two lists of the length of the number of entries. A key that
    does not parse is not an error; it contributes whatever [UnmarshalJSON]
    left in the fresh time variable. *)
Theorem getSecondsAndCPULists_entries (w : observations) :
  getSecondsAndCPULists w =
  (map (fun entry =>
          float64_of_int (Unix (fst (UnmarshalJSON zeroTime (fst entry)))))
     (entries w),
   map (fun entry => float64_of_int (snd entry)) (entries w)) /\
  length (fst (getSecondsAndCPULists w)) = length (entries w) /\
  length (snd (getSecondsAndCPULists w)) = length (entries w).
Proof.
  assert (H : forall acc : list float64 * list float64,
    fold_left (fun acc obs => fold_left appendEntry obs acc) w acc =
    (fst acc ++ map (fun entry =>
                       float64_of_int
                         (Unix (fst (UnmarshalJSON zeroTime (fst entry)))))
                  (entries w),
     snd acc ++ map (fun entry => float64_of_int (snd entry)) (entries w))).
  { unfold entries. induction w as [|obs w IH]; intros [xs ys].
    - cbn. by rewrite !app_nil_r.
    - cbn [fold_left concat]. rewrite IH, appendEntry_fold. cbn [fst snd].
      by rewrite !map_app, <- !app_assoc. }
  unfold getSecondsAndCPULists. rewrite H. cbn [fst snd app].
  by rewrite !length_map.
Qed.

End Lists.

(** ** The results of [lineOfBestFit] *)

(** [lineOfBestFit] returns either both pointers and a nil error, or no
    pointer and an error; the error is its own zero-variance error or the one
    a call of the statistics returned, unchanged. *)
Theorem lineOfBestFit_all_or_nothing `{SP : StatsPkg}
    (allSeconds allCPUUtilizations : list float64) :
  (exists yIntercept slope,
     lineOfBestFit allSeconds allCPUUtilizations
     = (Some yIntercept, Some slope, None)) \/
  (exists err,
     lineOfBestFit allSeconds allCPUUtilizations = (None, None, Some err) /\
     (err = DegenerateInputError \/
      snd (CovariancePopulation allSeconds allCPUUtilizations) = Some err \/
      snd (PopulationVariance allSeconds) = Some err \/
      snd (Mean allSeconds) = Some err \/
      snd (Mean allCPUUtilizations) = Some err)).
Proof.
  unfold lineOfBestFit.
  destruct (CovariancePopulation allSeconds allCPUUtilizations) as [cov [e|]];
    [right; exists e; cbn; tauto |].
  destruct (PopulationVariance allSeconds) as [var [e|]];
    [right; exists e; cbn; tauto |].
  destruct (PrimFloat.eqb var 0);
    [right; exists DegenerateInputError; cbn; tauto |].
  destruct (Mean allSeconds) as [mx [e|]]; [right; exists e; cbn; tauto |].
  destruct (Mean allCPUUtilizations) as [my [e|]];
    [right; exists e; cbn; tauto |].
  left. by eexists _, _.
Qed.

(** ** What [removeOldUtils] keeps *)

(** For every window, whatever its keys, [removeOldUtils] returns the window
    without its first [k] observations for some [k]: it never reorders,
    changes or adds an observation, and an empty window stays empty. *)
Theorem removeOldUtils_suffix `{TP : TimePkg} (clock : nat -> Time) (n : nat)
    (w : observations) (podInitTime : float64) :
  (exists k : nat,
     (k <= length w)%nat /\
     removeOldUtils clock n w podInitTime = drop k w) /\
  (length (removeOldUtils clock n w podInitTime) <= length w)%nat /\
  removeOldUtils clock n [] podInitTime = [].
Proof.
  rewrite removeOldUtils_evict.
  destruct (evictOlderThan_suffix clock (RetentionHorizon podInitTime) w
              zeroTime n) as [ev Hev].
  assert (Hlen : length w = (length ev
            + length (evictOlderThan clock (RetentionHorizon podInitTime) w
                        zeroTime n))%nat)
    by (rewrite Hev at 1; apply length_app).
  conjuncts; [| lia | done].
  exists (length ev). split; [lia |].
  rewrite Hev at 2. by rewrite drop_app_length.
Qed.

(** ** The horizon of [removeOldUtils] *)

Section Horizon.
Context `{TP : TimePkg}.
Variable clock : nat -> Time.

(** An instant that passes the range test is younger than 600 seconds and
    than twenty initialisation times. *)
Lemma inRange_bounds (podInitTime : float64) (n : nat) (u : Time) :
  inRange clock (RetentionHorizon podInitTime) n u = true ->
  PrimFloat.ltb (Seconds (Since clock n u)) (podInitTime * 20) = true /\
  PrimFloat.ltb (Seconds (Since clock n u)) 600 = true.
Proof. apply ltb_math_Min. Qed.

(** The entries of an observation are read one after the other: scanning
    [a ++ b] is scanning [a], then [b] from where [a] left the time variable
    and the clock. *)
Lemma anyInRange_app (h : float64) (a b : observation) (u : Time) (n : nat) :
  anyInRange clock h (a ++ b) u n =
  anyInRange clock h a u n
  || anyInRange clock h b (timeAfter a u) (n + length a).
Proof.
  revert u n. induction a as [|entry a IH]; intros u n.
  - simpl. by rewrite Nat.add_0_r.
  - cbn [app anyInRange timeAfter fold_left length]. rewrite IH.
    rewrite <- Nat.add_succ_comm. by rewrite orb_assoc.
Qed.

Lemma timeAfter_app (a b : observation) (u : Time) :
  timeAfter (a ++ b) u = timeAfter b (timeAfter a u).
Proof. apply fold_left_app. Qed.

(** When no entry passed the range test, each was read and found out of
    range, at its reading of the clock and with the time variable as the
    entries before it left it. *)
Lemma anyInRange_none (h : float64) (es : observation) (u : Time) (n : nat) :
  anyInRange clock h es u n = false ->
  forall i entry, es !! i = Some entry ->
    inRange clock h (n + i)
      (fst (UnmarshalJSON (timeAfter (take i es) u) (fst entry))) = false.
Proof.
  revert u n. induction es as [|e es IH]; intros u n; [done |].
  cbn [anyInRange]. intros [Hhere Hrest]%orb_false_elim [|i] entry Hi.
  - injection Hi as <-. by rewrite Nat.add_0_r.
  - simpl in Hi. rewrite <- Nat.add_succ_comm.
    cbn [take timeAfter fold_left]. by apply IH.
Qed.

(** When an entry passed the range test, the first one that did is at some
    position [p]: it is in range, and the entries before it are not. *)
Lemma anyInRange_first (h : float64) (es : observation) (u : Time) (n : nat) :
  anyInRange clock h es u n = true ->
  exists p entry,
    es !! p = Some entry /\
    inRange clock h (n + p)
      (fst (UnmarshalJSON (timeAfter (take p es) u) (fst entry))) = true /\
    anyInRange clock h (take p es) u n = false.
Proof.
  revert u n. induction es as [|e es IH]; intros u n; [done |].
  cbn [anyInRange].
  destruct (inRange clock h n (fst (UnmarshalJSON u (fst e)))) eqn:Hhere.
  - intros _. exists 0%nat, e. by rewrite Nat.add_0_r.
  - cbn [orb]. intros Hrest.
    destruct (IH _ _ Hrest) as (p & entry & Hp & Hin & Hbefore).
    exists (S p), entry. rewrite <- Nat.add_succ_comm.
    cbn [take anyInRange timeAfter fold_left]. by rewrite Hhere.
Qed.

(** The observation at the head of what the eviction keeps: the
    observations before it had no entry in range, and it has one. *)
Lemma evictOlderThan_head (h : float64) (w : observations) (u : Time) (n : nat)
    (m : observation) (rest : observations) :
  evictOlderThan clock h w u n = m :: rest ->
  exists evicted,
    w = evicted ++ m :: rest /\
    anyInRange clock h (entries evicted) u n = false /\
    anyInRange clock h m (timeAfter (entries evicted) u)
      (n + length (entries evicted)) = true.
Proof.
  revert u n. induction w as [|m0 w IH]; intros u n; [done |].
  cbn [evictOlderThan]. destruct (anyInRange clock h m0 u n) eqn:Hin.
  - intros [= <- <-]. exists []. simpl. by rewrite Nat.add_0_r.
  - intros Hkept. destruct (IH _ _ Hkept) as (ev & -> & Hnone & Hone).
    exists (m0 :: ev). unfold entries in *. cbn [concat].
    rewrite anyInRange_app, timeAfter_app, length_app, Hin, Nat.add_assoc.
    done.
Qed.

(** The first observation [removeOldUtils] keeps owes it to one of its
    entries. With [es] the entries of the evicted observations followed by
    those of the kept one, in the order the loops read them, that entry is
    at a position [p] of [es], inside the kept observation. Its age is
    computed from the [p]-th reading of the clock after the call started
    and from the time variable as the [p] entries before it left it, and it
    is below 600 seconds and below twenty initialisation times. Every entry
    read before it was found out of range in the same way: no window starts
    with an observation known to be ten minutes old. *)
Theorem removeOldUtils_first_kept_is_recent (n : nat) (w : observations)
    (podInitTime : float64) (m : observation) (rest : observations) :
  removeOldUtils clock n w podInitTime = m :: rest ->
  exists (evicted : observations) (p : nat) (entry : string * Z),
    let es := entries evicted ++ m in
    let instant i e :=
      fst (UnmarshalJSON (timeAfter (take i es) zeroTime) (fst e)) in
    w = evicted ++ m :: rest /\
    (length (entries evicted) <= p)%nat /\
    es !! p = Some entry /\
    PrimFloat.ltb (Seconds (Since clock (n + p) (instant p entry)))
      (podInitTime * 20) = true /\
    PrimFloat.ltb (Seconds (Since clock (n + p) (instant p entry)))
      600 = true /\
    (forall i e, (i < p)%nat -> es !! i = Some e ->
       PrimFloat.ltb (Seconds (Since clock (n + i) (instant i e)))
         (RetentionHorizon podInitTime) = false).
Proof.
  rewrite removeOldUtils_evict. intros Hkept.
  destruct (evictOlderThan_head _ _ _ _ _ _ Hkept) as (ev & Hw & Hnone & Hone).
  assert (Hany : anyInRange clock (RetentionHorizon podInitTime)
                   (entries ev ++ m) zeroTime n = true).
  { by rewrite anyInRange_app, Hnone, Hone. }
  destruct (anyInRange_first _ _ _ _ Hany) as (p & entry & Hp & Hin & Hbefore).
  exists ev, p, entry. cbv zeta.
  assert (Hle : (length (entries ev) <= p)%nat).
  { destruct (Nat.le_gt_cases (length (entries ev)) p) as [|Hlt]; [done |].
    rewrite lookup_app_l in Hp by done.
    pose proof (anyInRange_none _ _ _ _ Hnone p entry Hp) as Hout.
    rewrite take_app_le in Hin by lia. congruence. }
  destruct (inRange_bounds _ _ _ Hin) as [H20 H600].
  conjuncts; [done | done | done | done | done |].
  intros i e Hi He.
  pose proof (anyInRange_none _ _ _ _ Hbefore i e) as Hout.
  rewrite take_take, Nat.min_l in Hout by lia.
  apply Hout. rewrite lookup_take_lt by done. done.
Qed.

(** The zero time is out of range at every horizon, once the clock is more
    than the longest [Duration] past it. *)
Lemma zeroTime_out_of_range (podInitTime : float64) (n : nat) :
  maxDuration <= clock n - zeroTime ->
  inRange clock (RetentionHorizon podInitTime) n zeroTime = false.
Proof.
  intros Hclock.
  destruct (inRange clock (RetentionHorizon podInitTime) n zeroTime) eqn:Hin;
    [|done].
  apply inRange_bounds in Hin as [_ Hin]. unfold Since, Sub in Hin.
  replace (Z.max minDuration (Z.min maxDuration (clock n - zeroTime)))
    with maxDuration in Hin by (unfold minDuration, maxDuration in *; lia).
  vm_compute in Hin. discriminate.
Qed.

(** When no key of the window parses, and a failed parse stores the zero
    time as [time.Parse] does, [removeOldUtils] returns the empty window:
    such observations are dropped without any error. *)
Theorem removeOldUtils_unparsable (n : nat) (w : observations)
    (podInitTime : float64) :
  (forall i, maxDuration <= clock i - zeroTime) ->
  (forall entry u,
     In entry (entries w) -> fst (UnmarshalJSON u (fst entry)) = zeroTime) ->
  removeOldUtils clock n w podInitTime = [].
Proof.
  intros Hclock Hkeys. rewrite removeOldUtils_evict.
  assert (Hany : forall (m : observation) u i,
            (forall entry u, In entry m ->
               fst (UnmarshalJSON u (fst entry)) = zeroTime) ->
            anyInRange clock (RetentionHorizon podInitTime) m u i = false).
  { induction m as [|entry m IH]; intros u i Hm; [done |].
    cbn [anyInRange]. rewrite (Hm entry u) by (by left).
    rewrite zeroTime_out_of_range by apply Hclock.
    apply IH. intros e u' He. apply Hm. by right. }
  assert (Hall : forall u i,
            evictOlderThan clock (RetentionHorizon podInitTime) w u i = []);
    [|apply Hall].
  unfold entries in Hkeys.
  induction w as [|m w IH]; intros u i; [done |].
  cbn [evictOlderThan]. rewrite Hany.
  - apply IH. intros e u' He. apply Hkeys. cbn. apply in_or_app. by right.
  - intros e u' He. apply Hkeys. cbn. apply in_or_app. by left.
Qed.

End Horizon.

(** ** The window after the eviction, under a clock that stands still *)

Section Frozen.
Context `{TP : TimePkg}.
Variable clock : nat -> Time.
Variable now : Time.
Hypothesis clock_frozen : forall i, clock i = now.

Lemma inRange_frozen (h : float64) (n : nat) (u : Time) :
  inRange clock h n u = PrimFloat.ltb (age now u) h.
Proof. unfold inRange, Since, age. by rewrite clock_frozen. Qed.

(** When the ages the code computes do not increase along the window, the
    eviction leaves exactly the observations in range: every observation
    kept is younger than the horizon, every observation dropped is not.
    This is the guarantee the comment in the loop relies on. *)
Theorem removeOldUtils_sorted_ages (n : nat) (w : observations)
    (tss : list Time) (podInitTime : float64) :
  Forall2 (timestamped (TP := TP)) w tss ->
  Sorted (fun a b => PrimFloat.leb (age now b) (age now a) = true) tss ->
  exists k : nat,
    removeOldUtils clock n w podInitTime = drop k w /\
    Forall (fun ts =>
              PrimFloat.ltb (age now ts) (RetentionHorizon podInitTime) = true)
      (drop k tss) /\
    Forall (fun ts =>
              PrimFloat.ltb (age now ts) (RetentionHorizon podInitTime) = false)
      (take k tss).
Proof.
  intros Hts Hsorted.
  destruct (evictOlderThan_timestamped clock (RetentionHorizon podInitTime)
              w tss Hts zeroTime n) as (k & Hk & Hev & Hout & Hfirst).
  exists k. conjuncts.
  - by rewrite removeOldUtils_evict.
  - destruct (tss !! k) as [ts|] eqn:Hkth.
    + specialize (Hfirst ts eq_refl). rewrite inRange_frozen in Hfirst.
      apply Sorted_StronglySorted in Hsorted;
        [|intros a b c Hab Hbc; by apply (leb_trans _ (age now b))].
      apply (StronglySorted_drop _ _ k) in Hsorted.
      rewrite (drop_S _ _ _ Hkth) in Hsorted |- *.
      inversion Hsorted as [|? ? _ Hrest]; subst.
      constructor; [done |].
      eapply Forall_impl; [exact Hrest |].
      intros ts' Hle. cbn in Hle. by apply (leb_ltb_trans _ (age now ts)).
    + apply lookup_ge_None_1 in Hkth. by rewrite drop_ge.
  - apply Forall_lookup_2. intros j ts [Hj Hlt]%lookup_take_Some.
    rewrite <- (inRange_frozen _ (n + j)). by apply Hout.
Qed.

(** When moreover the parse of a key does not depend on what the time
    variable held, evicting again at the same boot latency drops nothing
    more. *)
Theorem removeOldUtils_idempotent (n n' : nat) (w : observations)
    (podInitTime : float64) :
  (forall u u' key, fst (UnmarshalJSON u key) = fst (UnmarshalJSON u' key)) ->
  removeOldUtils clock n' (removeOldUtils clock n w podInitTime) podInitTime
  = removeOldUtils clock n w podInitTime.
Proof.
  intros Hparse. rewrite !removeOldUtils_evict.
  assert (Hany : forall h (m : observation) u i u' i',
            anyInRange clock h m u i = anyInRange clock h m u' i').
  { induction m as [|entry m IH]; intros u i u' i'; [done |].
    cbn [anyInRange]. rewrite !inRange_frozen.
    rewrite (Hparse u u'). f_equal. apply IH. }
  generalize zeroTime at 1 3. generalize zeroTime. revert n n'.
  induction w as [|m w IH]; intros n n' u u'; [done |].
  cbn [evictOlderThan].
  destruct (anyInRange clock (RetentionHorizon podInitTime) m u' n) eqn:Hin.
  - cbn [evictOlderThan]. by rewrite (Hany _ m u n' u' n), Hin.
  - apply IH.
Qed.

End Frozen.

(** ** Signs of [float64] results *)

Lemma binary_round_aux_signed (s : bool) (m e : Z) (l : location) :
  signed s (binary_round_aux prec emax s m e l).
Proof.
  unfold binary_round_aux.
  destruct (shr_fexp prec emax m e l) as [mrs' e'].
  destruct (shr_fexp prec emax _ e' loc_Exact) as [mrs'' e''].
  destruct (shr_m mrs''); simpl; [done | | done].
  by destruct (e'' <=? emax - prec).
Qed.

Lemma binary_normalize_signed (m e : Z) :
  0 <= m -> signed false (binary_normalize prec emax m e false).
Proof.
  destruct m as [|p|p]; [done | | lia]. intros _. cbn [binary_normalize].
  unfold binary_round. destruct (shl_align _ _ _).
  apply binary_round_aux_signed.
Qed.

Lemma SFdiv_signed (x : spec_float) (m : positive) (e : Z) :
  signed false x ->
  signed false (SFdiv prec emax x (S754_finite false m e)).
Proof.
  destruct x as [s|s| |s mx ex]; cbn; try done; intros ->; try done.
  destruct (SFdiv_core_binary prec emax (Z.pos mx) ex (Z.pos m) e) as [[mz ez] lz].
  apply binary_round_aux_signed.
Qed.

Lemma SFadd_signed (x y : spec_float) :
  signed false x -> signed false y -> signed false (SFadd prec emax x y).
Proof.
  destruct x as [sx|sx| |sx mx ex], y as [sy|sy| |sy my ey]; cbn; try done;
    intros -> ->; try done.
  apply binary_normalize_signed. cbn. lia.
Qed.

Lemma SFmul_notPositive (x : spec_float) (m : positive) (e : Z) :
  notPositive x -> notPositive (SFmul prec emax x (S754_finite false m e)).
Proof.
  destruct x as [s|s| |s mx ex]; cbn; try done; intros ->; try done.
  pose proof (binary_round_aux_signed true (Z.pos (mx * m)) (ex + e) loc_Exact)
    as H.
  by destruct (binary_round_aux _ _ _ _ _ _).
Qed.

Lemma SFleb_zero_notPositive (x : spec_float) :
  SFleb x (S754_zero false) = true -> notPositive x.
Proof. by destruct x as [s|[|]| |[|] mx ex]. Qed.

Lemma SFltb_signed_notPositive (a h : spec_float) :
  signed false a -> notPositive h -> SFltb a h = false.
Proof.
  destruct a as [sa|sa| |sa ma ea], h as [sh|sh| |sh mh eh]; cbn; try done;
    intros -> ?; subst; done.
Qed.

Lemma float64_of_int_signed (z : Z) :
  0 <= z < 2 ^ 63 -> signed false (Prim2SF (float64_of_int z)).
Proof.
  intros Hz. unfold float64_of_int.
  destruct (Z.ltb_spec (Z.abs z) (2 ^ 63)); [|lia].
  destruct (Z.ltb_spec z 0); [lia |].
  rewrite of_uint63_spec. apply binary_normalize_signed.
  apply Uint63.to_Z_bounded.
Qed.

(** The seconds of a duration that is not negative are not negative. *)
Lemma Seconds_signed (d : Duration) :
  0 <= d <= maxDuration -> signed false (Prim2SF (Seconds d)).
Proof.
  intros Hd. unfold Seconds, maxDuration, Second in *.
  rewrite FloatAxioms.add_spec, FloatAxioms.div_spec.
  destruct (Prim2SF 1e9) as [| | |[|] m e] eqn:Hc; try (vm_compute in Hc; discriminate).
  apply SFadd_signed; [|apply SFdiv_signed];
    apply float64_of_int_signed.
  - pose proof (Z.quot_pos d 1000000000).
    pose proof (Z.quot_le_upper_bound d 1000000000 (2^63 - 1)). lia.
  - pose proof (Z.rem_bound_pos d 1000000000). lia.
Qed.

Section NoBootLatency.
Context `{TP : TimePkg}.
Variable clock : nat -> Time.

Lemma evictOlderThan_none (h : float64) (w : observations) :
  (forall entry u i,
     In entry (entries w) ->
     inRange clock h i (fst (UnmarshalJSON u (fst entry))) = false) ->
  forall u i, evictOlderThan clock h w u i = [].
Proof.
  unfold entries. induction w as [|m w IH]; intros Hout u i; [done |].
  cbn [evictOlderThan].
  assert (Hany : forall (m' : observation) u i,
            (forall entry, In entry m' -> In entry m) ->
            anyInRange clock h m' u i = false).
  { induction m' as [|entry m' IHm]; intros u' i' Hsub; [done |].
    cbn [anyInRange]. rewrite Hout.
    - apply IHm. intros e He. apply Hsub. by right.
    - cbn. apply in_or_app. left. apply Hsub. by left. }
  rewrite Hany by done. apply IH.
  intros e u' i' He. apply Hout. cbn. apply in_or_app. by right.
Qed.

(** An instant that is not after the clock is out of range at the horizon
    of an initialisation time that is zero or negative. *)
Lemma past_out_of_range (podInitTime : float64) (i : nat) (u : Time) :
  PrimFloat.leb podInitTime 0 = true ->
  u <= clock i ->
  inRange clock (RetentionHorizon podInitTime) i u = false.
Proof.
  intros Hpit Hpast.
  destruct (inRange clock (RetentionHorizon podInitTime) i u) eqn:Hin; [|done].
  apply ltb_math_Min in Hin as [Hin _]. rewrite FloatAxioms.ltb_spec in Hin.
  rewrite SFltb_signed_notPositive in Hin; [done | |].
  - apply Seconds_signed. unfold Since, Sub, minDuration, maxDuration. lia.
  - rewrite FloatAxioms.mul_spec.
    destruct (Prim2SF 20) as [| | |[|] m e] eqn:Hc;
      try (vm_compute in Hc; discriminate).
    apply SFmul_notPositive, SFleb_zero_notPositive.
    rewrite FloatAxioms.leb_spec in Hpit.
    by replace (Prim2SF 0) with (S754_zero false) in Hpit by reflexivity.
Qed.

(** With an initialisation time that is zero or negative, every observation
    whose instants are not after the clock is dropped. The initialisation
    time [initTimeForPods] returns for no pod at all is such a one: with it
    the whole history is evicted. *)
Theorem removeOldUtils_without_boot_latency (h : store) (n : nat)
    (w : observations) (podInitTime : float64) :
  (forall entry u i,
     In entry (entries w) -> fst (UnmarshalJSON u (fst entry)) <= clock i) ->
  (PrimFloat.leb podInitTime 0 = true ->
   removeOldUtils clock n w podInitTime = []) /\
  removeOldUtils clock n w (fst (fst (initTimeForPods [] h))) = [].
Proof.
  intros Hpast.
  assert (Hgen : forall pit, PrimFloat.leb pit 0 = true ->
                 removeOldUtils clock n w pit = []).
  { intros pit Hpit. rewrite removeOldUtils_evict.
    apply evictOlderThan_none. intros entry u i He.
    apply past_out_of_range; [done | by apply Hpast]. }
  split; [apply Hgen | by apply Hgen].
Qed.

End NoBootLatency.

(** ** Closed instances of the further properties *)

(** A write to the pod whose map is at address 1 leaves the map at address 2
    alone. *)
Lemma writeToPodAnnotations_frame_witness :
  snd (writeToPodAnnotations PodExamples.cachedPod PitAnnotationName "1m0s"
         (<[2%positive := {[ "owner"%string := "team"%string ]}]>
            PodExamples.emptyStore)) !! 2%positive
  = Some {[ "owner"%string := "team"%string ]} /\
  (Annotations (Meta PodExamples.cachedPod) = None ->
   Annotations
     (Meta (fst (writeToPodAnnotations PodExamples.cachedPod PitAnnotationName
                   "1m0s"
                   (<[2%positive := {[ "owner"%string := "team"%string ]}]>
                      PodExamples.emptyStore)))) <> Some 2%positive).
Proof.
  apply writeToPodAnnotations_frame; [vm_compute; reflexivity | discriminate].
Defined.

(** A window whose first observation was written eleven minutes ago and
    whose second was written a minute ago, at a boot latency of 5 seconds:
    the second is kept, on the strength of its entry, the second one read. *)
Lemma removeOldUtils_first_kept_is_recent_witness :
  exists (evicted : observations) (p : nat) (entry : string * Z),
    let es : list (string * Z) :=
      entries evicted ++ [(Examples.oneMinuteAgo, 10)] in
    let instant i e :=
      fst (UnmarshalJSON (TimePkg := goTime)
             (timeAfter (TP := goTime) (take i es) zeroTime) (fst e)) in
    [[(Examples.elevenMinutesAgo, 50)]; [(Examples.oneMinuteAgo, 10)]]
    = evicted ++ [(Examples.oneMinuteAgo, 10)] :: [] /\
    (length (entries evicted) <= p)%nat /\
    es !! p = Some entry /\
    PrimFloat.ltb (Seconds (Since Examples.frozen (0 + p) (instant p entry)))
      (5 * 20) = true /\
    PrimFloat.ltb (Seconds (Since Examples.frozen (0 + p) (instant p entry)))
      600 = true /\
    (forall i e, (i < p)%nat -> es !! i = Some e ->
       PrimFloat.ltb (Seconds (Since Examples.frozen (0 + i) (instant i e)))
         (RetentionHorizon 5) = false).
Proof.
  apply (removeOldUtils_first_kept_is_recent (TP := goTime) Examples.frozen 0
           [[(Examples.elevenMinutesAgo, 50)]; [(Examples.oneMinuteAgo, 10)]]
           5 _ []).
  vm_compute. reflexivity.
Defined.

(** A window none of whose keys is a timestamp. *)
Lemma removeOldUtils_unparsable_witness :
  removeOldUtils (TP := goTime) Examples.frozen 0
    [[("garbage"%string, 50)]; [("yesterday"%string, 1); ("noon"%string, 2)]] 5
  = [].
Proof.
  apply removeOldUtils_unparsable.
  - intros i. vm_compute. discriminate.
  - intros entry u [<- | [<- | [<- | []]]]; reflexivity.
Defined.

(** The window of the test with one stale and one recent observation. *)
Lemma removeOldUtils_sorted_ages_witness :
  exists k : nat,
    removeOldUtils (TP := goTime) Examples.frozen 0
      [[(Examples.elevenMinutesAgo, 50)]; [(Examples.oneMinuteAgo, 10)]] 5
    = drop k [[(Examples.elevenMinutesAgo, 50)]; [(Examples.oneMinuteAgo, 10)]] /\
    Forall (fun ts =>
              PrimFloat.ltb (age Examples.now ts) (RetentionHorizon 5) = true)
      (drop k [Examples.now - 660 * Second; Examples.now - 60 * Second]) /\
    Forall (fun ts =>
              PrimFloat.ltb (age Examples.now ts) (RetentionHorizon 5) = false)
      (take k [Examples.now - 660 * Second; Examples.now - 60 * Second]).
Proof.
  apply (removeOldUtils_sorted_ages (TP := goTime) Examples.frozen Examples.now).
  - reflexivity.
  - repeat constructor.
    + exists Examples.elevenMinutesAgo, 50. split; [reflexivity |].
      intros u. vm_compute. reflexivity.
    + exists Examples.oneMinuteAgo, 10. split; [reflexivity |].
      intros u. vm_compute. reflexivity.
  - repeat constructor; vm_compute; reflexivity.
Defined.

(** Evicting twice from that window. *)
Lemma removeOldUtils_idempotent_witness :
  removeOldUtils (TP := goTime) Examples.frozen 7
    (removeOldUtils (TP := goTime) Examples.frozen 0
       [[(Examples.elevenMinutesAgo, 50)]; [(Examples.oneMinuteAgo, 10)]] 5) 5
  = removeOldUtils (TP := goTime) Examples.frozen 0
      [[(Examples.elevenMinutesAgo, 50)]; [(Examples.oneMinuteAgo, 10)]] 5.
Proof.
  apply (removeOldUtils_idempotent (TP := goTime) Examples.frozen Examples.now).
  - reflexivity.
  - intros u u' key. reflexivity.
Defined.

(** That window, with the initialisation time of no pods. *)
Lemma removeOldUtils_without_boot_latency_witness :
  (PrimFloat.leb 0 0 = true ->
   removeOldUtils (TP := goTime) Examples.frozen 0
     [[(Examples.elevenMinutesAgo, 50)]; [(Examples.oneMinuteAgo, 10)]] 0 = []) /\
  removeOldUtils (TP := goTime) Examples.frozen 0
    [[(Examples.elevenMinutesAgo, 50)]; [(Examples.oneMinuteAgo, 10)]]
    (fst (fst (initTimeForPods (TP := goTime) [] ∅))) = [].
Proof.
  apply (removeOldUtils_without_boot_latency (TP := goTime) Examples.frozen ∅ 0).
  intros entry u i [<- | [<- | []]]; vm_compute; discriminate.
Defined.

(** A scheduled pod between two ready ones: the pod behind it does not
    count. *)
Lemma initTimeForPods_stops_at_first_error_witness :
  initTimeForPods (TP := goTime)
    ([PodExamples.pod60] ++ PodExamples.unready :: [PodExamples.pod120]) ∅
  = initTimeForPods (TP := goTime)
      ([PodExamples.pod60] ++ PodExamples.unready :: []) ∅ /\
  exists err,
    snd (fst (initTimeForPods (TP := goTime)
                ([PodExamples.pod60] ++ PodExamples.unready
                   :: [PodExamples.pod120]) ∅)) = Some err.
Proof.
  apply (initTimeForPods_stops_at_first_error (TP := goTime)). reflexivity.
Defined.
